(** * omniduct: [ParsedNamespaces] (src/omniduct/databases/_namespaces.py)

    A shallow embedding of the namespace parser used by the database
    clients, and the properties of it that the specification states.

    Python objects are modelled as follows.
    - a [str] is a [string]; the [quote_char] and [separator] parameters,
      documented as "the character ...", are single characters ([ascii]);
    - a dictionary value is [None] or a [str] ([pyval]);
    - an [OrderedDict] (or a [dict], which keeps insertion order too) is an
      association list without repeated keys ([odict]), most general
      namespace first;
    - dictionaries are mutable and shared: they live in a store ([heap]) and
      an instance holds the location of its [__names] mapping;
    - methods run in a state-and-exception monad [M] over the store. *)

From Stdlib Require Import Ascii.
From stdpp Require Import base list gmap strings.

(** ** Python values *)

Inductive pyval : Type :=
| PyNone
| PyStr (s : string).

(** Truth value of an object: [None] and [''] are falsy. *)
Definition truthy (v : pyval) : bool :=
  match v with
  | PyNone => false
  | PyStr s => negb (String.eqb s "")
  end.

(** ** Ordered dictionaries *)

Module ODict.

Definition odict : Type := list (string * pyval).

Definition keys (d : odict) : list string := d.*1.

Definition values (d : odict) : list pyval := d.*2.

(** [d[k]], [None] here standing for [KeyError]. *)
Fixpoint getitem (d : odict) (k : string) : option pyval :=
  match d with
  | [] => None
  | (k', v) :: d' => if String.eqb k' k then Some v else getitem d' k
  end.

(** [k in d] *)
Definition contains (d : odict) (k : string) : bool :=
  match getitem d k with Some _ => true | None => false end.

(** [d.get(k)], which is [d.get(k, None)] *)
Definition get (d : odict) (k : string) : pyval :=
  match getitem d k with Some v => v | None => PyNone end.

(** [d[k] = v]: an existing key keeps its position, a new key goes last. *)
Fixpoint setitem (d : odict) (k : string) (v : pyval) : odict :=
  match d with
  | [] => [(k, v)]
  | (k', v') :: d' =>
      if String.eqb k' k then (k', v) :: d' else (k', v') :: setitem d' k v
  end.

(** [OrderedDict(pairs)]: the pairs are inserted from left to right. *)
Definition of_pairs (pairs : list (string * pyval)) : odict :=
  fold_left (fun d kv => setitem d (fst kv) (snd kv)) pairs [].

(** [d.popitem()] removes and returns the last pair; [None] stands for the
    [KeyError] raised on an empty dictionary. *)
Definition popitem (d : odict) : option (odict * (string * pyval)) :=
  match last d with
  | Some kv => Some (removelast d, kv)
  | None => None
  end.

(** Dictionaries have no repeated key. *)
Definition wf (d : odict) : Prop := NoDup (keys d).

End ODict.

Import ODict.

(** ** The tokenizer: the regular expression of [from_name]

    [namespace_matcher] is
    [([^{sep}{qc}]+)|{qc}([^`]*?){qc}], with [qc] and [sep] the escaped
    quote and separator characters.  [re.escape] of a single character
    matches exactly that character, inside a character class too. *)

Module Tokenizer.

Section Matcher.

Variables (sep qc : ascii).

Definition backtick : ascii := "`"%char.

(** The class [[^{sep}{qc}]]. *)
Definition plain (c : ascii) : bool :=
  negb (Ascii.eqb c sep) && negb (Ascii.eqb c qc).

(** Group 1, [([^{sep}{qc}]+)], is greedy and nothing follows it: it
    takes the longest run of class characters.  Returns the run and
    the rest of the subject. *)
Fixpoint take_plain (s : string) : string * string :=
  match s with
  | EmptyString => (EmptyString, EmptyString)
  | String c s' =>
      if plain c then
        let '(run, rest) := take_plain s' in (String c run, rest)
      else (EmptyString, s)
  end.

(** [([^`]*?){qc}] after the opening quote: the lazy star first tries
    the closing quote, and otherwise consumes one character that is
    not a backtick.  Returns the group and the rest of the subject. *)
Fixpoint lazy_until_quote (s : string) : option (string * string) :=
  match s with
  | EmptyString => None
  | String c s' =>
      if Ascii.eqb c qc then Some (EmptyString, s')
      else if Ascii.eqb c backtick then None
      else match lazy_until_quote s' with
           | Some (body, rest) => Some (String c body, rest)
           | None => None
           end
  end.

(** One match attempt at the start of [s]: the first alternative, then
    the second.  The result is [''.join(t)] for the tuple [t] of the two
    groups (the group that did not take part is ['']) and the rest of
    the subject after the match. *)
Definition match_here (s : string) : option (string * string) :=
  match s with
  | EmptyString => None
  | String c s' =>
      if plain c then Some (take_plain s)
      else if Ascii.eqb c qc then lazy_until_quote s'
      else None
  end.

(** [findall]: scan from the left; after a match go on where it ended,
    after a failed attempt move one character on.  A match is never
    empty, so [fuel] at least the length of the subject is enough. *)
Fixpoint findall_fuel (fuel : nat) (s : string) : list string :=
  match fuel with
  | O => []
  | S fuel' =>
      match s with
      | EmptyString => []
      | String _ s' =>
          match match_here s with
          | Some (tok, rest) => tok :: findall_fuel fuel' rest
          | None => findall_fuel fuel' s'
          end
      end
  end.

Definition findall (s : string) : list string :=
  findall_fuel (String.length s) s.

(** [names = [''.join(t) for t in namespace_matcher.findall(name)]
    if name else []] *)
Definition tokenize (name : string) : list string :=
  if String.eqb name "" then [] else findall name.

End Matcher.

End Tokenizer.

Import Tokenizer.

(** ** The store of dictionaries and the monad of methods *)

Definition loc : Type := nat.

(** The store: the dictionary objects allocated so far, by location. *)
Abbreviation heap := (list odict).

Definition deref (h : heap) (l : loc) : odict := default [] (h !! l).

(** The text of a [ValueError]: a string, or a string with the [repr] of a
    set of names in it (Python leaves the order of its elements open). *)
Inductive message : Type :=
| Msg (text : string)
| MsgSet (before : string) (names : gset string) (after : string).

Inductive exn : Type :=
| ValueError (m : message)
| KeyError (text : string)
| AttributeError (text : string).

Inductive outcome (A : Type) : Type :=
| Ok (a : A)
| Raise (e : exn).
Arguments Ok {A} a.
Arguments Raise {A} e.

Definition M (A : Type) : Type := heap -> outcome A * heap.

Definition ret {A} (a : A) : M A := fun h => (Ok a, h).

Definition raise {A} (e : exn) : M A := fun h => (Raise e, h).

Definition bind {A B} (c : M A) (k : A -> M B) : M B :=
  fun h =>
    match c h with
    | (Ok a, h') => k a h'
    | (Raise e, h') => (Raise e, h')
    end.

Declare Scope py_scope.
Delimit Scope py_scope with py.
Notation "x <- c ;; k" := (bind c (fun x => k))
  (at level 100, c at next level, right associativity) : py_scope.
Notation "c ;; k" := (bind c (fun _ => k))
  (at level 100, right associativity) : py_scope.
Local Open Scope py_scope.

(** A new dictionary object with the given content. *)
Definition alloc (d : odict) : M loc := fun h => (Ok (length h), h ++ [d]).

(** The content of the dictionary at [l]. *)
Definition load (l : loc) : M odict := fun h => (Ok (deref h l), h).

(** [d.get(k)] on the dictionary at [l]. *)
Definition dict_get (l : loc) (k : string) : M pyval :=
  fun h => (Ok (get (deref h l) k), h).

(** [d[k] = v] on the dictionary at [l]: the object is changed in place. *)
Definition dict_setitem (l : loc) (k : string) (v : pyval) : M unit :=
  fun h => (Ok tt, <[l := setitem (deref h l) k v]> h).

(** [d.copy()] of the dictionary at [l]: a new object. *)
Definition dict_copy (l : loc) : M loc :=
  d <- load l ;; alloc d.

(** [d.popitem()] on the dictionary at [l].  The text of the [KeyError] is
    that of an [OrderedDict], the mappings [from_name] and the constructor
    build; on a plain [dict] given to the constructor the same [KeyError]
    reads [popitem(): dictionary is empty]. *)
Definition dict_popitem (l : loc) : M (string * pyval) :=
  fun h =>
    match popitem (deref h l) with
    | Some (d', kv) => (Ok kv, <[l := d']> h)
    | None => (Raise (KeyError "dictionary is empty"), h)
    end.

(** ** The class [ParsedNamespaces] *)

(** An instance: its three private attributes, set once by [__init__]. *)
Record instance : Type := Instance_ {
  __names : loc;
  __quote_char : ascii;
  __separator : ascii
}.

Module ParsedNamespaces.

(** What [from_name] accepts as [name]: a [str], an instance, or any other
    object, of which only [type(name)] is looked at. *)
Inductive name_arg : Type :=
| NameStr (s : string)
| NameParsed (p : instance)
| NameOther (type_repr : string).

Definition str_of_char (c : ascii) : string := String c EmptyString.

(** [__init__(self, names, namespaces=None, quote_char, separator)].
    [if namespaces:] holds for a list that is not empty. *)
Definition __init__ (names : loc) (namespaces : option (list string))
    (quote_char separator : ascii) : M instance :=
  names <- match namespaces with
           | Some ((_ :: _) as namespaces) =>
               d <- load names ;;
               alloc (of_pairs ((fun namespace => (namespace, get d namespace))
                                  <$> namespaces))
           | _ => ret names
           end ;;
  ret {| __names := names; __quote_char := quote_char; __separator := separator |}.

(** [__getattr__(self, name)] *)
Definition __getattr__ (self : instance) (name : string) : M pyval :=
  d <- load (__names self) ;;
  match getitem d name with
  | Some v => ret v
  | None => raise (AttributeError name)
  end.

(** The property [namespaces]: [list(self.__names)]. *)
Definition namespaces (self : instance) : M (list string) :=
  d <- load (__names self) ;; ret (keys d).

(** The list built by the property [name]:
    [[self.__names[namespace] for namespace, name in self.__names.items() if name]].
    A truthy value is a string. *)
Definition resolved_names (d : odict) : list string :=
  omap (fun item : string * pyval =>
          if truthy (snd item) then
            match getitem d (fst item) with
            | Some (PyStr s) => Some s
            | _ => None
            end
          else None) d.

(** The property [name]. *)
Definition name (self : instance) : M string :=
  d <- load (__names self) ;;
  let names := resolved_names d in
  if Nat.eqb (length names) 0 then ret ""
  else
    let qc := str_of_char (__quote_char self) in
    ret (qc +:+ String.concat (qc +:+ "." +:+ qc) names +:+ qc).

(** [__bool__] *)
Definition __bool__ (self : instance) : M bool :=
  n <- name self ;; ret (negb (String.eqb n "")).

(** The property [parent]. *)
Definition parent (self : instance) : M instance :=
  names <- dict_copy (__names self) ;;
  dict_popitem names ;;
  __init__ names None (__quote_char self) (__separator self).

(** [as_dict]: the mapping object of the instance itself. *)
Definition as_dict (self : instance) : M loc :=
  ret (__names self).

(** [__nonzero__], the Python 2 name of [__bool__]. *)
Definition __nonzero__ (self : instance) : M bool :=
  n <- name self ;; ret (negb (String.eqb n "")).

(** [__str__] *)
Definition __str__ (self : instance) : M string :=
  name self.

(** [__repr__]: ["Namespace<{}>".format(self.name)] *)
Definition __repr__ (self : instance) : M string :=
  n <- name self ;; ret ("Namespace<" +:+ n +:+ ">").

(** The comprehension of [from_name],
    [[(namespace, names.pop() if names else None) for namespace in namespaces[::-1]]],
    over the reversed schema [rnamespaces]; [names.pop()] takes the last
    component off the list. *)
Fixpoint pop_each (rnamespaces : list string) (names : list string)
    : list (string * pyval) :=
  match rnamespaces with
  | [] => []
  | namespace :: rest =>
      match last names with
      | Some n => (namespace, PyStr n) :: pop_each rest (removelast names)
      | None => (namespace, PyNone) :: pop_each rest names
      end
  end.

(** The closing loop of [from_name] over [namespaces[::-1]]. *)
Fixpoint defaulting_pass (defaults : gmap string pyval) (parsed : loc)
    (rnamespaces : list string) : M unit :=
  match rnamespaces with
  | [] => ret tt
  | namespace :: rest =>
      v <- dict_get parsed namespace ;;
      if negb (truthy v) && bool_decide (is_Some (defaults !! namespace)) then
        match defaults !! namespace with
        | Some dv => dict_setitem parsed namespace dv
        | None => raise (KeyError namespace)
        end ;;
        defaulting_pass defaults parsed rest
      else
        v' <- dict_get parsed namespace ;;
        if negb (truthy v') then ret tt
        else defaulting_pass defaults parsed rest
  end.

Definition not_encapsulated (extra : gset string) : exn :=
  ValueError
    (MsgSet ("ParsedNamespace is not encapsulated by the namespaces " +:+
             "provided to this constructor. It has extra namespaces: ")
            extra ".").

(** ["Name '{}' has too many namespaces. Should be of form: <{}>."] with
    the name and [">{sep}<".format(sep=separator).join(namespaces)]. *)
Definition too_many_namespaces (name : string) (separator : ascii)
    (namespaces : list string) : exn :=
  ValueError
    (Msg ("Name '" +:+ name +:+ "' has too many namespaces. Should be of form: <"
          +:+ String.concat (">" +:+ str_of_char separator +:+ "<") namespaces
          +:+ ">.")).

Definition cannot_construct (type_repr : string) : exn :=
  ValueError
    (Msg ("Cannot construct `ParsedNamespaces` instance from " +:+
          "name of type: `" +:+ type_repr +:+ "`.")).

(** [from_name(cls, name, namespaces, quote_char, separator, defaults)] *)
Definition from_name (name : name_arg) (namespaces : list string)
    (quote_char separator : ascii) (defaults : option (gmap string pyval))
    : M instance :=
  let defaults := default ∅ defaults in
  parsed <- match name with
            | NameParsed name =>
                own <- ParsedNamespaces.namespaces name ;;
                let extra_namespaces : gset string :=
                  list_to_set own ∖ list_to_set namespaces in
                if bool_decide (extra_namespaces ≠ ∅) then
                  raise (not_encapsulated extra_namespaces)
                else as_dict name
            | NameStr name =>
                let names := tokenize separator quote_char name in
                if Nat.ltb (length namespaces) (length names) then
                  raise (too_many_namespaces name separator namespaces)
                else
                  alloc (of_pairs (reverse (pop_each (reverse namespaces) names)))
            | NameOther type_repr => raise (cannot_construct type_repr)
            end ;;
  defaulting_pass defaults parsed (reverse namespaces) ;;
  __init__ parsed None quote_char separator.

End ParsedNamespaces.

Import ParsedNamespaces.

(** ** Auxiliary definitions for the statements *)

(** The default quote character (the double quote, code 34) and the
    default separator of [from_name]. *)
Definition dquote : ascii := "034"%char.
Definition dot : ascii := "."%char.

(** What the closing loop of [from_name] does to the content of [parsed]. *)
Fixpoint defaulting (defaults : gmap string pyval) (rnamespaces : list string)
    (parsed : odict) : odict :=
  match rnamespaces with
  | [] => parsed
  | namespace :: rest =>
      if truthy (get parsed namespace) then defaulting defaults rest parsed
      else match defaults !! namespace with
           | Some dv => defaulting defaults rest (setitem parsed namespace dv)
           | None => parsed
           end
  end.

(** The value of namespace [k] once the closing loop has gone over it: its
    own value when that is resolved, its default otherwise. *)
Definition defaulted (defaults : gmap string pyval) (d : odict) (k : string)
    : pyval :=
  if truthy (get d k) then get d k else default PyNone (defaults !! k).

(** The character [c] occurs in [s]. *)
Fixpoint occurs (c : ascii) (s : string) : bool :=
  match s with
  | EmptyString => false
  | String c' s' => Ascii.eqb c' c || occurs c s'
  end.

(** The resolved values of a mapping, in its order: the strings that are
    not empty. *)
Definition resolved_values (d : odict) : list string :=
  omap (fun item : string * pyval =>
          match snd item with
          | PyStr s => if String.eqb s "" then None else Some s
          | PyNone => None
          end) d.

(** Every namespace of the mapping is resolved: set to a non-empty value. *)
Definition fully_resolved (d : odict) : bool :=
  forallb (fun item => truthy (snd item)) d.

(** No value of the mapping contains the character [c]. *)
Definition values_free_of (c : ascii) (d : odict) : bool :=
  forallb (fun item => match snd item with
                       | PyStr s => negb (occurs c s)
                       | PyNone => true
                       end) d.

(** [from_name(parsed.name, parsed.namespaces, quote_char, separator)] with
    the quote character and the separator of [parsed]. *)
Definition reparse (parsed : instance) : M instance :=
  n <- name parsed ;;
  own <- ParsedNamespaces.namespaces parsed ;;
  from_name (NameStr n) own (__quote_char parsed) (__separator parsed) None.

(** The rendering of [name] in the words of the specification: the values
    each wrapped in [quote_char], with [quote_char + separator + quote_char]
    between them; the empty string when there is no value. *)
Definition render_spec (quote_char separator : ascii) (values : list string)
    : string :=
  match values with
  | [] => ""
  | _ =>
      let qc := str_of_char quote_char in
      qc +:+ String.concat (qc +:+ str_of_char separator +:+ qc) values +:+ qc
  end.

(** What [name] returns for the values [v :: vs] and the quote character
    [qc]. *)
Definition rendering (qc : ascii) (v : string) (vs : list string) : string :=
  str_of_char qc
    +:+ String.concat (str_of_char qc +:+ "." +:+ str_of_char qc) (v :: vs)
    +:+ str_of_char qc.

(** The error of a name with more components than the schema has slots. *)
Definition is_overflow_error (e : exn) : Prop :=
  exists name separator namespaces,
    e = too_many_namespaces name separator namespaces.

(** A quoted span: [body] between two quote characters. *)
Definition quoted (qc : ascii) (body : string) : string :=
  String qc (body +:+ str_of_char qc).

(** Every character of [s] is in the class [[^{sep}{qc}]]. *)
Fixpoint all_plain (sep qc : ascii) (s : string) : bool :=
  match s with
  | EmptyString => true
  | String c s' => plain sep qc c && all_plain sep qc s'
  end.

(** An unquoted component: a non-empty string without separator and quote
    character. *)
Definition word (sep qc : ascii) (s : string) : bool :=
  negb (String.eqb s "") && all_plain sep qc s.

(** The value of the namespace at position [i] of a schema of [n]
    namespaces once [components] are right-aligned on it and the namespaces
    before them take their [defaults]. *)
Definition aligned_value (defaults : gmap string pyval) (n : nat)
    (components : list string) (i : nat) (ns : string) : pyval :=
  if Nat.ltb i (n - length components)
  then default PyNone (defaults !! ns)
  else match components !! (i - (n - length components)) with
       | Some c => PyStr c
       | None => PyNone
       end.

(** * Properties *)

(** ** Ordered dictionaries *)

Section ODictFacts.

Implicit Types (d : odict) (k : string) (v : pyval).

Lemma getitem_None d k : getitem d k = None <-> k ∉ keys d.
Proof.
  induction d as [|[k' v'] d IH]; simpl.
  - split; [intros _; apply not_elem_of_nil | done].
  - destruct (String.eqb_spec k' k) as [->|Hne].
    + split; [done | intros H; destruct H; left].
    + rewrite IH, not_elem_of_cons. naive_solver.
Qed.

Lemma getitem_Some_in d k v : getitem d k = Some v -> (k, v) ∈ d.
Proof.
  induction d as [|[k' v'] d IH]; simpl; [done|].
  destruct (String.eqb_spec k' k) as [->|Hne].
  - intros [= ->]. left.
  - intros H. right. auto.
Qed.

Lemma getitem_in_wf d k v : wf d -> (k, v) ∈ d -> getitem d k = Some v.
Proof.
  unfold wf. induction d as [|[k' v'] d IH]; simpl; intros Hnd Hin.
  - by apply elem_of_nil in Hin.
  - apply NoDup_cons in Hnd as [Hk' Hnd].
    apply elem_of_cons in Hin as [[= -> ->]|Hin].
    + by rewrite String.eqb_refl.
    + destruct (String.eqb_spec k' k) as [->|Hne]; [|auto].
      destruct Hk'. apply (list_elem_of_fmap_2 fst) in Hin. exact Hin.
Qed.

Lemma getitem_setitem_eq d k v : getitem (setitem d k v) k = Some v.
Proof.
  induction d as [|[k' v'] d IH]; simpl.
  - by rewrite String.eqb_refl.
  - destruct (String.eqb_spec k' k) as [->|Hne]; simpl.
    + by rewrite String.eqb_refl.
    + by destruct (String.eqb_spec k' k).
Qed.

Lemma getitem_setitem_ne d k k' v :
  k <> k' -> getitem (setitem d k v) k' = getitem d k'.
Proof.
  intros Hne. induction d as [|[k1 v1] d IH]; simpl.
  - by destruct (String.eqb_spec k k').
  - destruct (String.eqb_spec k1 k) as [->|Hne1]; simpl.
    + by destruct (String.eqb_spec k k').
    + by rewrite IH.
Qed.

Lemma get_setitem_eq d k v : get (setitem d k v) k = v.
Proof. unfold get. by rewrite getitem_setitem_eq. Qed.

Lemma get_setitem_ne d k k' v : k <> k' -> get (setitem d k v) k' = get d k'.
Proof. intros. unfold get. by rewrite getitem_setitem_ne. Qed.

Lemma get_notin d k : k ∉ keys d -> get d k = PyNone.
Proof. intros H. apply getitem_None in H. unfold get. by rewrite H. Qed.

(** Assigning to a key the dictionary has leaves the keys as they are. *)
Lemma keys_setitem_in d k v : k ∈ keys d -> keys (setitem d k v) = keys d.
Proof.
  induction d as [|[k' v'] d IH]; simpl; intros Hin.
  - by apply elem_of_nil in Hin.
  - destruct (String.eqb_spec k' k) as [->|Hne]; simpl; [done|].
    apply elem_of_cons in Hin as [->|Hin]; [done|].
    f_equal. auto.
Qed.

(** Assigning to a new key appends it. *)
Lemma setitem_notin d k v : k ∉ keys d -> setitem d k v = d ++ [(k, v)].
Proof.
  induction d as [|[k' v'] d IH]; simpl; intros Hin; [done|].
  apply not_elem_of_cons in Hin as [Hne Hin].
  destruct (String.eqb_spec k' k) as [->|_]; [done|].
  f_equal. auto.
Qed.

Lemma keys_setitem_notin d k v :
  k ∉ keys d -> keys (setitem d k v) = keys d ++ [k].
Proof.
  intros H. rewrite setitem_notin by done. unfold keys. by rewrite fmap_app.
Qed.

Lemma keys_setitem d k v :
  keys (setitem d k v) = if bool_decide (k ∈ keys d) then keys d else keys d ++ [k].
Proof.
  case_bool_decide; [by apply keys_setitem_in | by apply keys_setitem_notin].
Qed.

Lemma elem_of_keys_setitem d k v k' :
  k' ∈ keys (setitem d k v) <-> k' = k \/ k' ∈ keys d.
Proof.
  rewrite keys_setitem. case_bool_decide.
  - naive_solver.
  - rewrite elem_of_app, list_elem_of_singleton. naive_solver.
Qed.

Lemma wf_setitem d k v : wf d -> wf (setitem d k v).
Proof.
  unfold wf. intros Hwf. rewrite keys_setitem. case_bool_decide; [done|].
  apply NoDup_app. split_and!; [done | | apply NoDup_singleton].
  intros x Hx Hx'. apply list_elem_of_singleton in Hx' as ->. done.
Qed.

(** [OrderedDict(pairs)], step by step. *)
Lemma fold_setitem_wf (pairs : list (string * pyval)) d :
  wf d -> wf (fold_left (fun d kv => setitem d (fst kv) (snd kv)) pairs d).
Proof.
  revert d. induction pairs as [|[k v] pairs IH]; simpl; intros d Hd; [done|].
  apply IH. by apply wf_setitem.
Qed.

Lemma fold_setitem_keys (pairs : list (string * pyval)) d k :
  k ∈ keys (fold_left (fun d kv => setitem d (fst kv) (snd kv)) pairs d)
  <-> k ∈ keys d \/ k ∈ pairs.*1.
Proof.
  revert d. induction pairs as [|[k' v] pairs IH]; simpl; intros d.
  - rewrite elem_of_nil. naive_solver.
  - rewrite IH, elem_of_keys_setitem, elem_of_cons. naive_solver.
Qed.

Lemma fold_setitem_fresh (pairs : list (string * pyval)) d :
  NoDup (keys d ++ pairs.*1) ->
  fold_left (fun d kv => setitem d (fst kv) (snd kv)) pairs d = d ++ pairs.
Proof.
  revert d. induction pairs as [|[k v] pairs IH]; simpl; intros d Hnd.
  - by rewrite app_nil_r.
  - assert (k ∉ keys d) as Hk.
    { apply NoDup_app in Hnd as (_ & Hdis & _). intros Hin.
      apply (Hdis k Hin). left. }
    rewrite setitem_notin by done. rewrite IH.
    + by rewrite <- app_assoc.
    + unfold keys in *. rewrite fmap_app; simpl.
      by rewrite <- app_assoc.
Qed.

Lemma wf_of_pairs (pairs : list (string * pyval)) : wf (of_pairs pairs).
Proof. apply fold_setitem_wf. apply NoDup_nil_2. Qed.

Lemma elem_of_keys_of_pairs (pairs : list (string * pyval)) k :
  k ∈ keys (of_pairs pairs) <-> k ∈ pairs.*1.
Proof.
  unfold of_pairs. rewrite fold_setitem_keys. simpl.
  rewrite elem_of_nil. naive_solver.
Qed.

(** Without repeated keys the pairs are the dictionary. *)
Lemma of_pairs_NoDup (pairs : list (string * pyval)) :
  NoDup pairs.*1 -> of_pairs pairs = pairs.
Proof. intros H. unfold of_pairs. by rewrite fold_setitem_fresh. Qed.

End ODictFacts.

(** ** Strings *)

Lemma append_cons (c : ascii) (s1 s2 : string) :
  String c s1 +:+ s2 = String c (s1 +:+ s2).
Proof. reflexivity. Qed.

Lemma append_nil_l (s : string) : "" +:+ s = s.
Proof. reflexivity. Qed.

Lemma append_assoc (s1 s2 s3 : string) : (s1 +:+ s2) +:+ s3 = s1 +:+ (s2 +:+ s3).
Proof.
  induction s1 as [|c s1 IH]; [done|].
  rewrite !append_cons. by f_equal.
Qed.

Lemma append_nil_r (s : string) : s +:+ "" = s.
Proof.
  induction s as [|c s IH]; [done|].
  rewrite append_cons. by f_equal.
Qed.

Lemma length_append (s1 s2 : string) :
  String.length (s1 +:+ s2) = String.length s1 + String.length s2.
Proof.
  induction s1 as [|c s1 IH]; [done|].
  rewrite append_cons. simpl. by f_equal.
Qed.

(** ** The tokenizer *)

Section TokenizerFacts.

Variables (sep qc : ascii).

Lemma take_plain_length s run rest :
  take_plain sep qc s = (run, rest) ->
  String.length s = String.length run + String.length rest.
Proof.
  revert run rest. induction s as [|c s IH]; simpl; intros run rest.
  - by intros [= <- <-].
  - destruct (plain sep qc c).
    + destruct (take_plain sep qc s) as [run' rest'] eqn:E.
      intros [= <- <-]. simpl. by rewrite (IH _ _ eq_refl).
    + by intros [= <- <-].
Qed.

Lemma lazy_until_quote_length s body rest :
  lazy_until_quote qc s = Some (body, rest) ->
  String.length s = S (String.length body + String.length rest).
Proof.
  revert body rest. induction s as [|c s IH]; simpl; intros body rest; [done|].
  destruct (Ascii.eqb c qc); [by intros [= <- <-]|].
  destruct (Ascii.eqb c backtick); [done|].
  destruct (lazy_until_quote qc s) as [[body' rest']|] eqn:E; [|done].
  intros [= <- <-]. simpl. by rewrite (IH _ _ eq_refl).
Qed.

(** A match consumes at least one character. *)
Lemma match_here_shorter s tok rest :
  match_here sep qc s = Some (tok, rest) -> String.length rest < String.length s.
Proof.
  destruct s as [|c s]; simpl; [done|].
  destruct (plain sep qc c) eqn:Hp.
  - destruct (take_plain sep qc s) as [run' rest'] eqn:E.
    intros [= <- <-]. apply take_plain_length in E. lia.
  - destruct (Ascii.eqb c qc); [|done].
    intros H. apply lazy_until_quote_length in H. lia.
Qed.

(** Any fuel from the length of the subject on gives the same tokens. *)
Lemma findall_fuel_irrelevant m s n n' :
  String.length s <= m -> String.length s <= n -> String.length s <= n' ->
  findall_fuel sep qc n s = findall_fuel sep qc n' s.
Proof.
  revert s n n'. induction m as [|m IH]; intros s n n' Hm Hn Hn'.
  - destruct s; [|simpl in Hm; lia]. by destruct n, n'.
  - destruct s as [|c s]; [by destruct n, n'|].
    destruct n as [|n]; [simpl in Hn; lia|].
    destruct n' as [|n']; [simpl in Hn'; lia|].
    cbn [findall_fuel]. simpl in Hm, Hn, Hn'.
    destruct (match_here sep qc (String c s)) as [[tok rest]|] eqn:E.
    + apply match_here_shorter in E. simpl in E.
      f_equal. apply IH; lia.
    + apply IH; lia.
Qed.

Lemma findall_fuel_enough n s :
  String.length s <= n -> findall_fuel sep qc n s = findall sep qc s.
Proof.
  intros H. unfold findall.
  by apply (findall_fuel_irrelevant (String.length s)).
Qed.

(** The scan of [findall], without fuel. *)
Lemma findall_unfold c s :
  findall sep qc (String c s) =
    match match_here sep qc (String c s) with
    | Some (tok, rest) => tok :: findall sep qc rest
    | None => findall sep qc s
    end.
Proof.
  unfold findall at 1. cbn [String.length findall_fuel].
  destruct (match_here sep qc (String c s)) as [[tok rest]|] eqn:E.
  - apply match_here_shorter in E. simpl in E.
    by rewrite findall_fuel_enough by lia.
  - by rewrite findall_fuel_enough by lia.
Qed.

Lemma findall_nil : findall sep qc "" = [].
Proof. done. Qed.

End TokenizerFacts.

(** ** The store and the closing loop of [from_name] *)

Section StoreFacts.

Implicit Types (h : heap) (l : loc) (d : odict).

Lemma deref_alloc h d : deref (h ++ [d]) (length h) = d.
Proof. unfold deref. by rewrite list_lookup_middle. Qed.

Lemma deref_app_l h h' l : l < length h -> deref (h ++ h') l = deref h l.
Proof. intros. unfold deref. by rewrite lookup_app_l. Qed.

Lemma deref_insert_eq h l d : l < length h -> deref (<[l := d]> h) l = d.
Proof. intros. unfold deref. by rewrite list_lookup_insert_eq. Qed.

Lemma deref_insert_ne h l l' d : l <> l' -> deref (<[l := d]> h) l' = deref h l'.
Proof. intros. unfold deref. by rewrite list_lookup_insert_ne. Qed.

Lemma deref_dangling h l : length h <= l -> deref h l = [].
Proof. intros. unfold deref. by rewrite lookup_ge_None_2. Qed.

Lemma insert_deref h l : <[l := deref h l]> h = h.
Proof.
  unfold deref. destruct (h !! l) as [d|] eqn:E; simpl.
  - by apply list_insert_id.
  - apply list_insert_ge. by apply lookup_ge_None.
Qed.

(** The loop changes the one dictionary it is given, as [defaulting] says. *)
Lemma defaulting_pass_run defaults l rns h :
  l < length h ->
  defaulting_pass defaults l rns h =
    (Ok tt, <[l := defaulting defaults rns (deref h l)]> h).
Proof.
  revert h. induction rns as [|ns rns IH]; intros h Hl.
  - simpl. unfold ret. by rewrite insert_deref.
  - cbn [defaulting_pass defaulting]. unfold bind, dict_get.
    destruct (truthy (get (deref h l) ns)) eqn:Ht; simpl.
    + rewrite Ht. simpl. by apply IH.
    + destruct (defaults !! ns) as [dv|] eqn:Ed.
      * rewrite bool_decide_eq_true_2 by eauto. unfold dict_setitem.
        rewrite IH by by rewrite length_insert.
        rewrite deref_insert_eq by done.
        by rewrite list_insert_insert_eq.
      * rewrite bool_decide_eq_false_2 by (intros [? ?]; done).
        rewrite Ht. simpl. unfold ret. by rewrite insert_deref.
Qed.

(** The loop raises nothing. *)
Lemma defaulting_pass_dangling defaults l rns h :
  length h <= l -> defaulting_pass defaults l rns h = (Ok tt, h).
Proof.
  intros Hl. induction rns as [|ns rns IH]; [done|].
  cbn [defaulting_pass]. unfold bind, dict_get.
  rewrite (deref_dangling h l Hl). simpl.
  destruct (defaults !! ns) as [dv|] eqn:Ed.
  - rewrite bool_decide_eq_true_2 by eauto. unfold dict_setitem.
    rewrite (deref_dangling h l Hl). by rewrite list_insert_ge.
  - rewrite bool_decide_eq_false_2 by (intros [? ?]; done).
    by rewrite (deref_dangling h l Hl).
Qed.

Lemma defaulting_pass_ok defaults l rns h :
  exists h', defaulting_pass defaults l rns h = (Ok tt, h').
Proof.
  destruct (decide (l < length h)).
  - rewrite defaulting_pass_run by done. eauto.
  - rewrite defaulting_pass_dangling by lia. eauto.
Qed.

(** Without defaults the loop changes nothing. *)
Lemma defaulting_empty rns d : defaulting ∅ rns d = d.
Proof.
  induction rns as [|ns rns IH]; simpl; [done|].
  destruct (truthy (get d ns)); [done|]. by rewrite lookup_empty.
Qed.

Lemma defaulting_pass_empty l rns h : defaulting_pass ∅ l rns h = (Ok tt, h).
Proof.
  destruct (decide (l < length h)).
  - rewrite defaulting_pass_run by done.
    by rewrite defaulting_empty, insert_deref.
  - by rewrite defaulting_pass_dangling by lia.
Qed.

End StoreFacts.

Lemma insert_alloc (h : heap) (d d' : odict) :
  <[length h := d']> (h ++ [d]) = h ++ [d'].
Proof.
  replace (length h) with (length h + 0) at 1 by lia.
  by rewrite insert_app_r.
Qed.

Lemma popitem_cons (item : string * pyval) (items : odict) :
  exists last_item,
    popitem (item :: items) = Some (removelast (item :: items), last_item).
Proof.
  unfold popitem.
  destruct (last (item :: items)) as [x|] eqn:E; [eauto|].
  by apply last_None in E.
Qed.

(** ** [parent] *)

(** C9: [parent] of an instance whose mapping is empty raises the [KeyError]
    of [popitem] on an empty dictionary and returns no instance; on a mapping
    with at least one namespace it returns a new instance over a copy without
    the last namespace.  The instance [from_name] builds for the empty name
    and the empty schema is such an instance with an empty mapping. *)
Theorem C9_parent_of_empty_mapping_raises (self : instance) (h : heap) :
  match deref h (__names self) with
  | [] => parent self h = (Raise (KeyError "dictionary is empty"), h ++ [[]])
  | item :: items =>
      parent self h =
        (Ok {| __names := length h;
               __quote_char := __quote_char self;
               __separator := __separator self |},
         h ++ [removelast (item :: items)])
  end
  /\ forall quote_char separator defaults,
       let empty := {| __names := length h;
                       __quote_char := quote_char;
                       __separator := separator |} in
       from_name (NameStr "") [] quote_char separator defaults h
         = (Ok empty, h ++ [[]])
       /\ deref (h ++ [[]]) (__names empty) = []
       /\ parent empty (h ++ [[]])
            = (Raise (KeyError "dictionary is empty"), h ++ [[]] ++ [[]]).
Proof.
  split.
  - unfold parent, dict_copy, dict_popitem, bind, load, alloc. simpl.
    rewrite deref_alloc.
    destruct (deref h (__names self)) as [|item items] eqn:E; [done|].
    destruct (popitem_cons item items) as [x ->].
    by rewrite insert_alloc.
  - intros quote_char separator defaults. simpl. split_and!.
    + done.
    + apply deref_alloc.
    + unfold parent, dict_copy, dict_popitem, bind, load, alloc. simpl.
      rewrite deref_alloc, deref_alloc. simpl. by rewrite <- app_assoc.
Qed.

(** ** [as_dict] *)

(** C3, the claim refuted: on the instance over [{'table': 't'}] the mapping
    that [as_dict] returns is changed through that reference, and the next
    [as_dict] of the same instance shows the change. *)
Lemma C3_as_dict_mutation_is_seen :
  let self := {| __names := 0; __quote_char := dquote; __separator := dot |} in
  (d1 <- as_dict self ;;
   before <- load d1 ;;
   dict_setitem d1 "table" (PyStr "other") ;;
   d2 <- as_dict self ;;
   after <- load d2 ;;
   ret (before, after)) [[("table", PyStr "t")]]
  = (Ok ([("table", PyStr "t")], [("table", PyStr "other")]),
     [[("table", PyStr "other")]]).
Proof. reflexivity. Qed.

(** C3, as the code has it: [as_dict] returns the mapping object of the
    instance itself and leaves the store alone, so two calls return the same
    object and equal mappings; an assignment through the returned reference
    changes the instance's mapping, and a later [as_dict] returns the changed
    mapping. *)
Theorem C3_as_dict_returns_own_mapping (self : instance) (h : heap)
    (k : string) (v : pyval) :
  __names self < length h ->
  as_dict self h = (Ok (__names self), h)
  /\ (d1 <- as_dict self ;; d2 <- as_dict self ;;
      m1 <- load d1 ;; m2 <- load d2 ;; ret (d1, d2, m1, m2)) h
     = (Ok (__names self, __names self,
            deref h (__names self), deref h (__names self)), h)
  /\ (d1 <- as_dict self ;; dict_setitem d1 k v ;;
      d2 <- as_dict self ;; load d2) h
     = (Ok (setitem (deref h (__names self)) k v),
        <[__names self := setitem (deref h (__names self)) k v]> h).
Proof.
  intros Hl. split_and!; [done..|].
  unfold as_dict, dict_setitem, load, bind, ret. simpl.
  by rewrite deref_insert_eq.
Qed.

Lemma C3_as_dict_returns_own_mapping_witness :
  let self := {| __names := 0; __quote_char := dquote; __separator := dot |} in
  let h : heap := [[("database", PyNone); ("table", PyStr "t")]] in
  (d1 <- as_dict self ;; dict_setitem d1 "database" (PyStr "db") ;;
   d2 <- as_dict self ;; load d2) h
  = (Ok [("database", PyStr "db"); ("table", PyStr "t")],
     [[("database", PyStr "db"); ("table", PyStr "t")]]).
Proof.
  exact (proj2 (proj2 (C3_as_dict_returns_own_mapping
                         {| __names := 0; __quote_char := dquote;
                            __separator := dot |}
                         [[("database", PyNone); ("table", PyStr "t")]]
                         "database" (PyStr "db") ltac:(simpl; lia)))).
Defined.

(** ** The constructor *)

Section InitFacts.

Variable f : string -> pyval.

Lemma getitem_fold_setitem_map (l : list string) (d : odict) (k : string) :
  getitem (fold_left (fun d kv => setitem d (fst kv) (snd kv))
                     ((fun k => (k, f k)) <$> l) d) k
  = if bool_decide (k ∈ l) then Some (f k) else getitem d k.
Proof.
  revert d. induction l as [|k0 l IH]; intros d.
  - rewrite bool_decide_eq_false_2; [done | apply not_elem_of_nil].
  - cbn [fmap list_fmap fold_left fst snd]. rewrite IH.
    destruct (decide (k = k0)) as [->|Hne].
    + rewrite (bool_decide_eq_true_2 (k0 ∈ k0 :: l)) by left.
      rewrite getitem_setitem_eq. by case_bool_decide.
    + rewrite getitem_setitem_ne by done.
      rewrite (bool_decide_ext (k ∈ k0 :: l) (k ∈ l)); [done|].
      rewrite elem_of_cons. naive_solver.
Qed.

Lemma getitem_of_pairs_map (l : list string) (k : string) :
  getitem (of_pairs ((fun k => (k, f k)) <$> l)) k
  = if bool_decide (k ∈ l) then Some (f k) else None.
Proof. unfold of_pairs. by rewrite getitem_fold_setitem_map. Qed.

Lemma keys_map_pair (l : list string) : ((fun k => (k, f k)) <$> l).*1 = l.
Proof. induction l as [|k l IH]; simpl; [done | by f_equal]. Qed.

End InitFacts.

(** C10, the claim refuted: given the mapping [{'a': 'x'}] and the empty
    list as the ordering, the constructor keeps the mapping as it is ([if
    namespaces:] fails for an empty list): the key [a], which is not in the
    list, is not dropped. *)
Lemma C10_init_empty_list_keeps_mapping :
  (self <- __init__ 0 (Some []) dquote dot ;;
   ParsedNamespaces.namespaces self) [[("a", PyStr "x")]]
  = (Ok ["a"], [[("a", PyStr "x")]]).
Proof. reflexivity. Qed.

(** C10, as the code has it: given a mapping and an ordering list that is
    not empty, the constructor raises nothing and builds a new mapping whose
    keys are exactly the entries of the list (the list itself when no entry
    is repeated); an entry takes its value from the given mapping and is
    [None] when the mapping lacks it, a key of the mapping that is not in
    the list is dropped. *)
Theorem C10_init_with_ordering_list (names : loc) (namespaces : list string)
    (quote_char separator : ascii) (h : heap) :
  namespaces <> [] ->
  let given := deref h names in
  let built :=
    of_pairs ((fun namespace => (namespace, get given namespace)) <$> namespaces) in
  __init__ names (Some namespaces) quote_char separator h
    = (Ok {| __names := length h;
             __quote_char := quote_char;
             __separator := separator |}, h ++ [built])
  /\ (forall k, k ∈ keys built <-> k ∈ namespaces)
  /\ NoDup (keys built)
  /\ (NoDup namespaces -> keys built = namespaces)
  /\ (forall k, k ∈ namespaces -> getitem built k = Some (get given k))
  /\ (forall k, k ∈ namespaces -> k ∉ keys given -> getitem built k = Some PyNone)
  /\ (forall k, k ∉ namespaces -> getitem built k = None).
Proof.
  intros Hne given built. split_and!.
  - destruct namespaces as [|ns nss]; [done|].
    reflexivity.
  - intros k. unfold built. by rewrite elem_of_keys_of_pairs, keys_map_pair.
  - apply wf_of_pairs.
  - intros Hnd. unfold built. rewrite of_pairs_NoDup.
    + apply keys_map_pair.
    + by rewrite keys_map_pair.
  - intros k Hk. unfold built. rewrite getitem_of_pairs_map.
    by rewrite bool_decide_eq_true_2.
  - intros k Hk Hk'. unfold built. rewrite getitem_of_pairs_map.
    rewrite bool_decide_eq_true_2 by done. by rewrite get_notin.
  - intros k Hk. unfold built. rewrite getitem_of_pairs_map.
    by rewrite bool_decide_eq_false_2.
Qed.

Lemma C10_init_with_ordering_list_witness :
  __init__ 0 (Some ["database"; "table"]) dquote dot
    [[("table", PyStr "t"); ("view", PyStr "v")]]
  = (Ok {| __names := 1; __quote_char := dquote; __separator := dot |},
     [[("table", PyStr "t"); ("view", PyStr "v")];
      [("database", PyNone); ("table", PyStr "t")]]).
Proof.
  exact (proj1 (C10_init_with_ordering_list 0 ["database"; "table"] dquote dot
                  [[("table", PyStr "t"); ("view", PyStr "v")]]
                  ltac:(discriminate))).
Defined.

(** ** [from_name]: the keys of the result *)

Lemma pop_each_keys (rns names : list string) : (pop_each rns names).*1 = rns.
Proof.
  revert names. induction rns as [|ns rns IH]; intros names; simpl; [done|].
  destruct (last names); simpl; by rewrite IH.
Qed.

Lemma keys_defaulting_present defaults (rns : list string) (d : odict) :
  (forall k, k ∈ rns -> k ∈ keys d) ->
  keys (defaulting defaults rns d) = keys d.
Proof.
  revert d. induction rns as [|ns rns IH]; intros d Hin; simpl; [done|].
  assert (forall k, k ∈ rns -> k ∈ keys d) as Hin' by (intros; apply Hin; by right).
  destruct (truthy (get d ns)); [by apply IH|].
  destruct (defaults !! ns) as [dv|]; [|done].
  assert (ns ∈ keys d) as Hns by (apply Hin; left).
  rewrite IH; [by apply keys_setitem_in|].
  intros k Hk. rewrite keys_setitem_in by done. auto.
Qed.

Lemma keys_defaulting_covered defaults (rns : list string) (d : odict) :
  (forall k, k ∈ rns -> is_Some (defaults !! k) -> k ∈ keys d) ->
  keys (defaulting defaults rns d) = keys d.
Proof.
  revert d. induction rns as [|ns rns IH]; intros d Hcov; simpl; [done|].
  assert (forall k, k ∈ rns -> is_Some (defaults !! k) -> k ∈ keys d) as Hcov'
    by (intros k Hk; apply Hcov; by right).
  destruct (truthy (get d ns)); [by apply IH|].
  destruct (defaults !! ns) as [dv|] eqn:Hdv; [|done].
  assert (ns ∈ keys d) as Hns by (apply Hcov; [left | by rewrite Hdv]).
  rewrite IH; [by apply keys_setitem_in|].
  intros k Hk Hsome. rewrite keys_setitem_in by done. auto.
Qed.

Lemma keys_defaulting_within defaults (rns : list string) (d : odict) (k : string) :
  k ∈ keys (defaulting defaults rns d) -> k ∈ keys d \/ k ∈ rns.
Proof.
  revert d. induction rns as [|ns rns IH]; intros d; simpl; [by left|].
  destruct (truthy (get d ns)).
  - intros H. apply IH in H as [?|?]; [by left | right; by right].
  - destruct (defaults !! ns) as [dv|]; [|by left].
    intros H. apply IH in H as [H|?]; [|right; by right].
    apply elem_of_keys_setitem in H as [->|?]; [right; left | by left].
Qed.

(** What [from_name] returns for a string that fits the schema. *)
Lemma from_name_str_run (s : string) (nss : list string) (qc sep : ascii)
    (defaults : option (gmap string pyval)) (h : heap) :
  length (tokenize sep qc s) <= length nss ->
  from_name (NameStr s) nss qc sep defaults h
  = (Ok {| __names := length h; __quote_char := qc; __separator := sep |},
     h ++ [defaulting (default ∅ defaults) (reverse nss)
             (of_pairs (reverse (pop_each (reverse nss) (tokenize sep qc s))))]).
Proof.
  intros Hle. unfold from_name, bind. cbv zeta.
  destruct (Nat.ltb_spec (length nss) (length (tokenize sep qc s))) as [?|_]; [lia|].
  unfold alloc.
  rewrite defaulting_pass_run by (rewrite length_app; simpl; lia).
  rewrite deref_alloc, insert_alloc. done.
Qed.

(** What [from_name] returns for a string with too many components. *)
Lemma from_name_str_overflow (s : string) (nss : list string) (qc sep : ascii)
    (defaults : option (gmap string pyval)) (h : heap) :
  length nss < length (tokenize sep qc s) ->
  from_name (NameStr s) nss qc sep defaults h
  = (Raise (too_many_namespaces s sep nss), h).
Proof.
  intros Hlt. unfold from_name, bind. cbv zeta.
  by destruct (Nat.ltb_spec (length nss) (length (tokenize sep qc s))) as [_|?]; [|lia].
Qed.

(** What [from_name] returns for an instance. *)
Lemma from_name_parsed_run (q : instance) (nss : list string) (qc sep : ascii)
    (defaults : option (gmap string pyval)) (h : heap) :
  from_name (NameParsed q) nss qc sep defaults h
  = let extra : gset string :=
      list_to_set (keys (deref h (__names q))) ∖ list_to_set nss in
    if bool_decide (extra ≠ ∅) then (Raise (not_encapsulated extra), h)
    else (Ok {| __names := __names q; __quote_char := qc; __separator := sep |},
          <[__names q := defaulting (default ∅ defaults) (reverse nss)
                           (deref h (__names q))]> h).
Proof.
  unfold from_name, bind, ParsedNamespaces.namespaces, load, ret, as_dict. simpl.
  case_bool_decide; [done|]. unfold ret.
  destruct (decide (__names q < length h)).
  - by rewrite defaulting_pass_run.
  - rewrite defaulting_pass_dangling by lia. simpl.
    by rewrite list_insert_ge by lia.
Qed.

Lemma keys_of_parsed_string (nss toks : list string) (k : string) :
  k ∈ keys (of_pairs (reverse (pop_each (reverse nss) toks))) <-> k ∈ nss.
Proof.
  rewrite elem_of_keys_of_pairs, fmap_reverse, pop_each_keys.
  by rewrite reverse_involutive.
Qed.

(** C1, the claim refuted: [from_name] of the instance over [{'table': 't'}]
    for the schema [database, table] returns an instance whose only key is
    [table]; the namespace [database] of the schema is missing. *)
Lemma C1_from_name_instance_lacks_schema_key :
  (self <- from_name
             (NameParsed {| __names := 0; __quote_char := dquote;
                            __separator := dot |})
             ["database"; "table"] dquote dot None ;;
   ParsedNamespaces.namespaces self) [[("table", PyStr "t")]]
  = (Ok ["table"], [[("table", PyStr "t")]]).
Proof. vm_compute. reflexivity. Qed.

(** C1, as the code has it.  For a string name the keys of the returned
    instance are exactly the namespaces of the schema, each once, and they
    are the schema itself, in its order, when the schema repeats no
    namespace.  For a name that is an instance, the returned instance holds
    the mapping object of that instance: every key of it is a namespace of
    the schema, and when no namespace of the schema that the given instance
    lacks has a default, its keys are exactly the keys the given instance
    had, in their order, so that a namespace of the schema which the given
    instance lacks is missing. *)
Theorem C1_from_name_keys (name : name_arg) (namespaces : list string)
    (quote_char separator : ascii) (defaults : option (gmap string pyval))
    (h h' : heap) (self : instance) :
  from_name name namespaces quote_char separator defaults h = (Ok self, h') ->
  let result := keys (deref h' (__names self)) in
  match name with
  | NameStr _ =>
      (forall k, k ∈ result <-> k ∈ namespaces)
      /\ NoDup result
      /\ (NoDup namespaces -> result = namespaces)
  | NameParsed given =>
      let own := keys (deref h (__names given)) in
      __names self = __names given
      /\ (forall k, k ∈ result -> k ∈ namespaces)
      /\ ((forall k, k ∈ namespaces -> k ∉ own ->
             default ∅ defaults !! k = None) ->
          result = own)
  | NameOther _ => False
  end.
Proof.
  destruct name as [s|given|ty]; intros Hrun result.
  - destruct (decide (length (tokenize separator quote_char s) <= length namespaces))
      as [Hle|Hgt].
    2: { rewrite from_name_str_overflow in Hrun by lia. done. }
    rewrite from_name_str_run in Hrun by done.
    injection Hrun as <- <-. unfold result. simpl. rewrite deref_alloc.
    set (d0 := of_pairs (reverse (pop_each (reverse namespaces)
                                    (tokenize separator quote_char s)))).
    assert (keys (defaulting (default ∅ defaults) (reverse namespaces) d0)
            = keys d0) as ->.
    { apply keys_defaulting_present. intros k Hk.
      apply keys_of_parsed_string. by apply elem_of_reverse. }
    split_and!.
    + intros k. apply keys_of_parsed_string.
    + apply wf_of_pairs.
    + intros Hnd. unfold d0. rewrite of_pairs_NoDup.
      * unfold keys. by rewrite fmap_reverse, pop_each_keys, reverse_involutive.
      * by rewrite fmap_reverse, pop_each_keys, reverse_involutive.
  - intros own. rewrite from_name_parsed_run in Hrun. cbv zeta in Hrun.
    case_bool_decide as Hextra; [done|].
    injection Hrun as <- <-. unfold result. simpl.
    destruct (decide (__names given < length h)) as [Hl|Hl].
    + rewrite deref_insert_eq by done. fold own. split_and!.
      * done.
      * intros k Hk. apply keys_defaulting_within in Hk as [Hk|Hk].
        -- set_solver.
        -- by apply elem_of_reverse.
      * intros Hcov. apply keys_defaulting_covered.
        intros k Hk [dv Hdv]. rewrite elem_of_reverse in Hk.
        destruct (decide (k ∈ own)) as [Hin|Hnin]; [done|].
        rewrite (Hcov k Hk Hnin) in Hdv. done.
    + rewrite list_insert_ge by lia. unfold own.
      rewrite deref_dangling by lia. split_and!; try done.
      intros k Hk. by apply elem_of_nil in Hk.
  - done.
Qed.

Lemma C1_from_name_keys_witness :
  keys (deref [[("database", PyNone); ("table", PyStr "my_table")]] 0)
  = ["database"; "table"]
  /\ keys (deref [[("database", PyStr "d"); ("table", PyStr "t")]] 0)
     = keys (deref [[("database", PyNone); ("table", PyStr "t")]] 0).
Proof.
  split.
  - exact (proj2 (proj2 (C1_from_name_keys
                           (NameStr "my_table") ["database"; "table"] dquote dot
                           None [] _ _ ltac:(vm_compute; reflexivity)))
             ltac:(repeat constructor; set_solver)).
  - assert (from_name
              (NameParsed {| __names := 0; __quote_char := dquote;
                             __separator := dot |})
              ["catalog"; "database"; "table"] dquote dot
              (Some {[ "database" := PyStr "d" ]})
              [[("database", PyNone); ("table", PyStr "t")]]
            = (Ok {| __names := 0; __quote_char := dquote; __separator := dot |},
               [[("database", PyStr "d"); ("table", PyStr "t")]])) as Hrun
      by (vm_compute; reflexivity).
    refine (proj2 (proj2 (C1_from_name_keys _ _ _ _ _ _ _ _ Hrun)) _).
    intros k Hk Hnk. apply elem_of_cons in Hk as [->|Hk].
    + vm_compute. reflexivity.
    + destruct Hnk. exact Hk.
Defined.

(** ** [from_name]: right alignment *)

(** The comprehension over the reversed schema, read in schema order: the
    components go to the last namespaces, [None] to those before. *)
Lemma pop_each_aligned (nss toks : list string) :
  length toks <= length nss ->
  reverse (pop_each (reverse nss) toks)
  = zip nss (replicate (length nss - length toks) PyNone ++ (PyStr <$> toks)).
Proof.
  revert toks. induction nss as [|ns nss IH] using rev_ind; intros toks Hle.
  - destruct toks; [done | simpl in Hle; lia].
  - rewrite reverse_snoc. cbn [pop_each].
    destruct (last toks) as [t|] eqn:E.
    + apply last_Some in E as [toks' ->].
      rewrite List.removelast_last, reverse_cons.
      rewrite !length_app in *. simpl in *.
      rewrite IH by lia.
      replace (length nss + 1 - (length toks' + 1))
        with (length nss - length toks') by lia.
      rewrite fmap_app, app_assoc.
      rewrite zip_with_app; [done|].
      rewrite length_app, length_replicate, length_fmap. lia.
    + apply last_None in E as ->. rewrite reverse_cons.
      rewrite IH by (simpl; lia). simpl.
      rewrite !app_nil_r, length_app. simpl.
      replace (length nss + 1 - 0) with (S (length nss - 0)) by lia.
      rewrite replicate_S_end.
      rewrite zip_with_app; [done|].
      rewrite length_replicate. lia.
Qed.

(** C5: a string that tokenizes to [k] components, for a schema of [n >= k]
    namespaces and no defaults, gives the instance whose mapping pairs the
    last [k] namespaces with the components, in order, and the first
    [n - k] namespaces with [None]. *)
Theorem C5_from_name_right_aligns (name : string) (namespaces : list string)
    (quote_char separator : ascii) (defaults : option (gmap string pyval))
    (h : heap) :
  let components := tokenize separator quote_char name in
  let n := length namespaces in
  let k := length components in
  let aligned :=
    zip namespaces (replicate (n - k) PyNone ++ (PyStr <$> components)) in
  default ∅ defaults = ∅ ->
  k <= n ->
  from_name (NameStr name) namespaces quote_char separator defaults h
    = (Ok {| __names := length h;
             __quote_char := quote_char;
             __separator := separator |}, h ++ [of_pairs aligned])
  /\ (NoDup namespaces -> of_pairs aligned = aligned)
  /\ (forall i ns, i < n - k -> namespaces !! i = Some ns ->
        aligned !! i = Some (ns, PyNone))
  /\ (forall j ns c, namespaces !! (n - k + j) = Some ns ->
        components !! j = Some c ->
        aligned !! (n - k + j) = Some (ns, PyStr c)).
Proof.
  intros components n k aligned Hdef Hle. split_and!.
  - rewrite from_name_str_run by done. rewrite Hdef, defaulting_empty.
    by rewrite pop_each_aligned.
  - intros Hnd. apply of_pairs_NoDup. unfold aligned.
    rewrite fst_zip; [done|].
    rewrite length_app, length_replicate, length_fmap. lia.
  - intros i ns Hi Hns. unfold aligned. rewrite lookup_zip_with, Hns. simpl.
    rewrite lookup_app_l by (rewrite length_replicate; lia).
    by rewrite lookup_replicate_2.
  - intros j ns c Hns Hc. unfold aligned. rewrite lookup_zip_with, Hns. simpl.
    rewrite lookup_app_r by (rewrite length_replicate; lia).
    rewrite length_replicate.
    replace (n - k + j - (n - k)) with j by lia.
    by rewrite list_lookup_fmap, Hc.
Qed.

Lemma C5_from_name_right_aligns_witness :
  from_name (NameStr "my_table") ["database"; "schema"; "table"] dquote dot None []
  = (Ok {| __names := 0; __quote_char := dquote; __separator := dot |},
     [[("database", PyNone); ("schema", PyNone); ("table", PyStr "my_table")]]).
Proof.
  exact (proj1 (C5_from_name_right_aligns
                  "my_table" ["database"; "schema"; "table"] dquote dot None []
                  eq_refl ltac:(vm_compute; lia))).
Defined.

(** ** [from_name]: errors *)

Lemma from_name_other_run (ty : string) (nss : list string) (qc sep : ascii)
    (defaults : option (gmap string pyval)) (h : heap) :
  from_name (NameOther ty) nss qc sep defaults h = (Raise (cannot_construct ty), h).
Proof. reflexivity. Qed.

Lemma cannot_construct_not_overflow (ty : string) :
  ~ is_overflow_error (cannot_construct ty).
Proof.
  intros (n & s & l & H). unfold cannot_construct, too_many_namespaces in H.
  discriminate H.
Qed.

(** C6: [from_name] raises the error of too many namespaces exactly when the
    name is a string that tokenizes to more components than the schema has
    namespaces; then it returns no instance and leaves the store as it was,
    and the text of the error holds the name and the form of the schema,
    [<ns1>{sep}<ns2>...]. *)
Theorem C6_from_name_overflow_error (name : name_arg) (namespaces : list string)
    (quote_char separator : ascii) (defaults : option (gmap string pyval))
    (h : heap) :
  ((exists e h',
       from_name name namespaces quote_char separator defaults h = (Raise e, h')
       /\ is_overflow_error e)
   <-> exists s, name = NameStr s
                 /\ length namespaces < length (tokenize separator quote_char s))
  /\ forall s, name = NameStr s ->
       length namespaces < length (tokenize separator quote_char s) ->
       let schema_form :=
         "<" +:+ String.concat (">" +:+ str_of_char separator +:+ "<") namespaces
             +:+ ">" in
       from_name name namespaces quote_char separator defaults h
       = (Raise (ValueError
                   (Msg (("Name '" +:+ s +:+ "' has too many namespaces. ")
                         +:+ "Should be of form: " +:+ schema_form +:+ "."))), h).
Proof.
  assert (forall s, length namespaces < length (tokenize separator quote_char s) ->
            from_name (NameStr s) namespaces quote_char separator defaults h
            = (Raise (ValueError
                 (Msg (("Name '" +:+ s +:+ "' has too many namespaces. ")
                       +:+ "Should be of form: "
                       +:+ ("<" +:+ String.concat (">" +:+ str_of_char separator +:+ "<")
                                                  namespaces +:+ ">")
                       +:+ "."))), h)) as Hraise.
  { intros s Hlt. rewrite from_name_str_overflow by done.
    unfold too_many_namespaces. rewrite !append_assoc. reflexivity. }
  split.
  - split.
    + intros (e & h' & Hrun & Hover). destruct name as [s|given|ty].
      * exists s. split; [done|].
        destruct (decide (length (tokenize separator quote_char s)
                          <= length namespaces)) as [Hle|Hgt]; [|lia].
        by rewrite from_name_str_run in Hrun.
      * rewrite from_name_parsed_run in Hrun. cbv zeta in Hrun.
        case_bool_decide; [|done].
        injection Hrun as <- <-. by destruct Hover as (? & ? & ? & ?).
      * rewrite from_name_other_run in Hrun. injection Hrun as <- <-.
        by apply cannot_construct_not_overflow in Hover.
    + intros (s & -> & Hlt). eexists _, h. split.
      * by apply from_name_str_overflow.
      * by eexists _, _, _.
  - intros s -> Hlt. by apply Hraise.
Qed.

Lemma C6_from_name_overflow_error_witness :
  from_name (NameStr "a.b.c") ["database"; "table"] dquote dot None []
  = (Raise (ValueError
              (Msg ("Name 'a.b.c' has too many namespaces. "
                    +:+ "Should be of form: <database>.<table>."))), []).
Proof.
  exact (proj2 (C6_from_name_overflow_error
                  (NameStr "a.b.c") ["database"; "table"] dquote dot None [])
           "a.b.c" eq_refl ltac:(vm_compute; lia)).
Defined.

(** ** [from_name]: the defaulting pass *)

Section DefaultingFacts.

Variable defaults : gmap string pyval.

(** One namespace that is unresolved and has no default ends the loop. *)
Lemma defaulting_stops (ns : string) (rest : list string) (d : odict) :
  truthy (get d ns) = false -> defaults !! ns = None ->
  defaulting defaults (ns :: rest) d = d.
Proof. intros Ht Hd. simpl. by rewrite Ht, Hd. Qed.

(** Over namespaces that are each resolved or have a default the loop
    goes through to the end, and gives every unresolved one its default. *)
Lemma defaulting_through (l rest : list string) (d : odict) :
  (forall k, k ∈ l -> truthy (get d k) = true \/ is_Some (defaults !! k)) ->
  let d' := defaulting defaults l d in
  defaulting defaults (l ++ rest) d = defaulting defaults rest d'
  /\ (forall k, k ∈ l -> get d' k = defaulted defaults d k)
  /\ (forall k, k ∉ l -> getitem d' k = getitem d k).
Proof.
  revert d. induction l as [|k0 l IH]; intros d Hpass.
  { simpl. split_and!; [done | | done].
    intros k Hk. by apply elem_of_nil in Hk. }
  cbn [defaulting app]. cbv zeta.
  destruct (truthy (get d k0)) eqn:Ht.
  - destruct (IH d) as (IH1 & IH2 & IH3).
    { intros k Hk. apply Hpass. by right. }
    split_and!; [done | |].
    + intros k Hk. destruct (decide (k ∈ l)) as [Hin|Hnin]; [by apply IH2|].
      apply elem_of_cons in Hk as [->|?]; [|done].
      unfold defaulted, get. rewrite IH3 by done.
      fold (get d k0). by rewrite Ht.
    + intros k Hk. apply not_elem_of_cons in Hk as [_ Hk]. by apply IH3.
  - destruct (Hpass k0) as [Hk0|[dv Hdv]]; [left | congruence |].
    rewrite Hdv.
    destruct (IH (setitem d k0 dv)) as (IH1 & IH2 & IH3).
    { intros k Hk. destruct (decide (k = k0)) as [->|Hne]; [right; eauto|].
      rewrite get_setitem_ne by done. apply Hpass. by right. }
    assert (defaulted defaults (setitem d k0 dv) k0 = defaulted defaults d k0) as Hk0.
    { unfold defaulted. rewrite get_setitem_eq, Ht, Hdv. simpl.
      by destruct (truthy dv). }
    split_and!; [done | |].
    + intros k Hk. destruct (decide (k ∈ l)) as [Hin|Hnin].
      * rewrite IH2 by done. destruct (decide (k = k0)) as [->|Hne]; [done|].
        unfold defaulted. by rewrite get_setitem_ne.
      * apply elem_of_cons in Hk as [->|?]; [|done].
        unfold get at 1. rewrite IH3 by done.
        rewrite getitem_setitem_eq. unfold defaulted. by rewrite Ht, Hdv.
    + intros k Hk. apply not_elem_of_cons in Hk as [Hne Hk].
      rewrite IH3 by done. by rewrite getitem_setitem_ne.
Qed.

End DefaultingFacts.

(** C4: the closing loop of [from_name] goes over the schema from the most
    specific namespace to the most general one.  A namespace that is
    unresolved gets its default when it has one; the first namespace that is
    unresolved and has no default ends the loop, so the namespaces more
    general than it keep the value they had.  Stated for a schema split as
    [general ++ specific], where the loop gets through [specific] and the
    last namespace of [general], if any, is unresolved without a default;
    and on the schema [a, b, c] with defaults for [a] and [b]: a name
    resolving only [c] gets both defaults, a name resolving only [b] gets
    neither. *)
Theorem C4_defaulting_pass_stops_at_first_gap :
  (forall (defaults : gmap string pyval) (parsed : loc)
          (general specific : list string) (h : heap),
      parsed < length h ->
      let before := deref h parsed in
      (forall k, k ∈ specific ->
         truthy (get before k) = true \/ is_Some (defaults !! k)) ->
      (forall ns, last general = Some ns ->
         truthy (get before ns) = false /\ defaults !! ns = None) ->
      exists after,
        defaulting_pass defaults parsed (reverse (general ++ specific)) h
          = (Ok tt, <[parsed := after]> h)
        /\ (forall k, k ∈ specific -> get after k = defaulted defaults before k)
        /\ (forall k, k ∉ specific -> getitem after k = getitem before k))
  /\ from_name (NameStr "x") ["a"; "b"; "c"] dquote dot
       (Some {[ "a" := PyStr "A"; "b" := PyStr "B" ]}) []
     = (Ok {| __names := 0; __quote_char := dquote; __separator := dot |},
        [[("a", PyStr "A"); ("b", PyStr "B"); ("c", PyStr "x")]])
  /\ from_name
       (NameParsed {| __names := 0; __quote_char := dquote; __separator := dot |})
       ["a"; "b"; "c"] dquote dot
       (Some {[ "a" := PyStr "A"; "b" := PyStr "B" ]})
       [[("a", PyNone); ("b", PyStr "x"); ("c", PyNone)]]
     = (Ok {| __names := 0; __quote_char := dquote; __separator := dot |},
        [[("a", PyNone); ("b", PyStr "x"); ("c", PyNone)]])
  /\ from_name (NameStr ("x." +:+ String dquote (String dquote "")))
       ["a"; "b"; "c"] dquote dot
       (Some {[ "a" := PyStr "A"; "b" := PyStr "B" ]}) []
     = (Ok {| __names := 0; __quote_char := dquote; __separator := dot |},
        [[("a", PyNone); ("b", PyStr "x"); ("c", PyStr "")]]).
Proof.
  split_and!; [|vm_compute; reflexivity..].
  intros defaults parsed general specific h Hl before Hpass Hstop.
  rewrite defaulting_pass_run by done. fold before.
  rewrite reverse_app.
  destruct (defaulting_through defaults (reverse specific) (reverse general) before)
    as (Hrun & Hin & Hout).
  { intros k Hk. apply Hpass. by apply elem_of_reverse. }
  rewrite Hrun.
  set (after := defaulting defaults (reverse specific) before) in *.
  exists after. split_and!.
  - destruct (last general) as [ns|] eqn:E.
    + destruct (Hstop ns eq_refl) as [Hfalsy Hnone].
      apply last_Some in E as [general' ->]. rewrite reverse_snoc.
      rewrite defaulting_stops; [done | | done].
      assert (ns ∉ specific) as Hns.
      { intros Hns. destruct (Hpass ns Hns) as [?|[? ?]]; congruence. }
      unfold get. rewrite Hout; [exact Hfalsy|].
      by rewrite elem_of_reverse.
    + apply last_None in E as ->. done.
  - intros k Hk. apply Hin. by apply elem_of_reverse.
  - intros k Hk. apply Hout. by rewrite elem_of_reverse.
Qed.

Lemma C4_defaulting_pass_stops_at_first_gap_witness :
  exists after,
    defaulting_pass {[ "a" := PyStr "A" ]} 0
      (reverse (["a"; "b"] ++ ["c"]))
      [[("a", PyNone); ("b", PyNone); ("c", PyStr "x")]]
    = (Ok tt, <[0 := after]> [[("a", PyNone); ("b", PyNone); ("c", PyStr "x")]])
    /\ (forall k, k ∈ ["c"] ->
          get after k
          = defaulted {[ "a" := PyStr "A" ]}
              [("a", PyNone); ("b", PyNone); ("c", PyStr "x")] k)
    /\ (forall k, k ∉ ["c"] ->
          getitem after k
          = getitem [("a", PyNone); ("b", PyNone); ("c", PyStr "x")] k).
Proof.
  refine (proj1 C4_defaulting_pass_stops_at_first_gap
            {[ "a" := PyStr "A" ]} 0 ["a"; "b"] ["c"]
            [[("a", PyNone); ("b", PyNone); ("c", PyStr "x")]] _ _ _).
  - simpl. lia.
  - intros k Hk. apply list_elem_of_singleton in Hk as ->. by left.
  - intros ns [= <-]. split; vm_compute; reflexivity.
Defined.

(** ** The tokenizer on quoted spans *)

Section QuotedFacts.

Variables (sep qc : ascii).

Lemma plain_quote : plain sep qc qc = false.
Proof. unfold plain. rewrite (Ascii.eqb_refl qc). by rewrite andb_false_r. Qed.

Lemma plain_separator : plain sep qc sep = false.
Proof. unfold plain. by rewrite (Ascii.eqb_refl sep). Qed.

(** The second alternative takes a body without quote and backtick whole,
    whatever else is in it. *)
Lemma lazy_until_quote_body (body rest : string) :
  occurs qc body = false -> occurs backtick body = false ->
  lazy_until_quote qc (body +:+ String qc rest) = Some (body, rest).
Proof.
  induction body as [|c body IH]; intros Hq Hb.
  - rewrite append_nil_l. simpl. by rewrite Ascii.eqb_refl.
  - simpl in Hq, Hb. apply orb_false_iff in Hq as [Hq1 Hq2].
    apply orb_false_iff in Hb as [Hb1 Hb2].
    rewrite append_cons. cbn [lazy_until_quote].
    rewrite Hq1, Hb1. by rewrite IH.
Qed.

Lemma findall_quoted (body rest : string) :
  occurs qc body = false -> occurs backtick body = false ->
  findall sep qc (String qc (body +:+ String qc rest))
  = body :: findall sep qc rest.
Proof.
  intros Hq Hb. rewrite findall_unfold. cbn [match_here].
  rewrite plain_quote, Ascii.eqb_refl.
  by rewrite lazy_until_quote_body.
Qed.

Lemma findall_skip_separator (rest : string) :
  sep <> qc ->
  findall sep qc (String sep rest) = findall sep qc rest.
Proof.
  intros Hne. rewrite findall_unfold. cbn [match_here].
  rewrite plain_separator.
  by destruct (Ascii.eqb_spec sep qc).
Qed.

End QuotedFacts.

(** C7, at the input where the code departs from the claim: with the quote
    character set to the double quote and the separator [.], the quoted span
    around [my`.table] is not taken as one component: the backtick in it
    makes the second alternative of the expression fail, the scan goes on
    inside the span and splits it at the separator, and [from_name] rejects
    the name for a schema of one namespace.  Without the backtick the span
    around [my.table] is the one component [my.table]. *)
Theorem C7_backtick_breaks_quoted_span :
  tokenize dot dquote (quoted dquote "my`.table") = ["my`"; "table"]
  /\ from_name (NameStr (quoted dquote "my`.table")) ["table"] dquote dot None []
     = (Raise (too_many_namespaces (quoted dquote "my`.table") dot ["table"]), [])
  /\ tokenize dot dquote (quoted dquote "my.table") = ["my.table"]
  /\ from_name (NameStr (quoted dquote "my.table")) ["table"] dquote dot None []
     = (Ok {| __names := 0; __quote_char := dquote; __separator := dot |},
        [[("table", PyStr "my.table")]]).
Proof. split_and!; vm_compute; reflexivity. Qed.

(** ** [name] *)

Section NameFacts.

(** The list that [name] builds, for items that the mapping [d0] holds. *)
Lemma resolved_names_values (d0 l : odict) :
  (forall item, item ∈ l -> getitem d0 (fst item) = Some (snd item)) ->
  omap (fun item : string * pyval =>
          if truthy (snd item) then
            match getitem d0 (fst item) with
            | Some (PyStr s) => Some s
            | _ => None
            end
          else None) l
  = resolved_values l.
Proof.
  induction l as [|[k v] l IH]; intros Hd0; [done|].
  unfold resolved_values. cbn [omap list_omap].
  rewrite (Hd0 (k, v)) by left. simpl.
  fold (resolved_values l). rewrite <- IH by (intros; apply Hd0; by right).
  destruct v as [|s]; simpl; [done|].
  by destruct (String.eqb s "").
Qed.

Lemma resolved_names_wf (d : odict) :
  wf d -> resolved_names d = resolved_values d.
Proof.
  intros Hwf. apply resolved_names_values.
  intros [k v] Hin. by apply getitem_in_wf.
Qed.

(** In a fully resolved mapping every value is one of the rendered ones. *)
Lemma resolved_values_full (d : odict) :
  fully_resolved d = true -> PyStr <$> resolved_values d = d.*2.
Proof.
  induction d as [|[k v] d IH]; intros Hfull; [done|].
  simpl in Hfull. apply andb_true_iff in Hfull as [Hv Hfull].
  destruct v as [|s]; [done|]. simpl in Hv.
  unfold resolved_values. cbn [omap list_omap snd].
  destruct (String.eqb s ""); [done|].
  rewrite !fmap_cons. f_equal. by apply IH.
Qed.

Lemma resolved_values_free (c : ascii) (d : odict) :
  values_free_of c d = true ->
  Forall (fun v => occurs c v = false) (resolved_values d).
Proof.
  induction d as [|[k v] d IH]; intros Hfree; [constructor|].
  simpl in Hfree. apply andb_true_iff in Hfree as [Hv Hfree].
  unfold resolved_values. cbn [omap list_omap]. simpl.
  destruct v as [|s]; [by apply IH|].
  destruct (String.eqb s ""); [by apply IH|]. simpl.
  constructor; [by apply negb_true_iff | by apply IH].
Qed.

(** What [name] returns. *)
Lemma name_run (self : instance) (h : heap) :
  name self h
  = (Ok (match resolved_names (deref h (__names self)) with
         | [] => ""
         | names =>
             let qc := str_of_char (__quote_char self) in
             qc +:+ String.concat (qc +:+ "." +:+ qc) names +:+ qc
         end), h).
Proof.
  unfold name, bind, load. simpl.
  by destruct (resolved_names (deref h (__names self))).
Qed.

End NameFacts.

(** C2, at the input where the code departs from the claim: the instance
    over [{'a': 'x', 'b': 'y'}] with the double quote as quote character and
    the separator [/] renders as the two quoted values with [.] between
    them, where the claim has the separator of the instance, [/]; the
    separator is not read by [name]. *)
Theorem C2_name_renders_dot_for_any_separator :
  let self := {| __names := 0; __quote_char := dquote; __separator := "/"%char |} in
  let h : heap := [[("a", PyStr "x"); ("b", PyStr "y")]] in
  name self h = (Ok (quoted dquote "x" +:+ "." +:+ quoted dquote "y"), h)
  /\ render_spec (__quote_char self) (__separator self)
       (resolved_values (deref h (__names self)))
     = quoted dquote "x" +:+ "/" +:+ quoted dquote "y"
  /\ (quoted dquote "x" +:+ "." +:+ quoted dquote "y"
      =? quoted dquote "x" +:+ "/" +:+ quoted dquote "y")%string = false.
Proof. split_and!; vm_compute; reflexivity. Qed.

(** ** Rendering and parsing again *)

Section RoundTrip.

Variable qc : ascii.
Hypothesis qc_not_dot : qc <> dot.

Lemma rendering_one (v : string) :
  rendering qc v [] = String qc (v +:+ String qc "").
Proof. reflexivity. Qed.

Lemma rendering_more (v v' : string) (vs : list string) :
  rendering qc v (v' :: vs)
  = String qc (v +:+ String qc (String dot (rendering qc v' vs))).
Proof.
  unfold rendering. cbn [String.concat].
  rewrite append_cons, append_nil_l. f_equal.
  by rewrite !append_assoc.
Qed.

(** The tokenizer reads the values back from the rendering. *)
Lemma findall_rendering (v : string) (vs : list string) :
  Forall (fun v => occurs qc v = false) (v :: vs) ->
  Forall (fun v => occurs backtick v = false) (v :: vs) ->
  findall dot qc (rendering qc v vs) = v :: vs.
Proof.
  revert v. induction vs as [|v' vs IH]; intros v Hq Hb.
  - rewrite rendering_one.
    apply Forall_cons in Hq as [Hq _]. apply Forall_cons in Hb as [Hb _].
    by rewrite findall_quoted.
  - rewrite rendering_more.
    apply Forall_cons in Hq as [Hq Hq']. apply Forall_cons in Hb as [Hb Hb'].
    rewrite findall_quoted by done.
    rewrite findall_skip_separator by done.
    by rewrite IH.
Qed.

Lemma tokenize_rendering (v : string) (vs : list string) :
  Forall (fun v => occurs qc v = false) (v :: vs) ->
  Forall (fun v => occurs backtick v = false) (v :: vs) ->
  tokenize dot qc (rendering qc v vs) = v :: vs.
Proof.
  intros Hq Hb. unfold tokenize.
  replace (String.eqb (rendering qc v vs) "") with false by reflexivity.
  by apply findall_rendering.
Qed.

End RoundTrip.

(** C8, the claim refuted: the instance over [{'table': v}], where the value
    [v] is [a], a double quote, [b], is fully resolved; its rendered name is
    [v] between two double quotes, which tokenizes to the two components [a]
    and [b], and parsing it again for the one namespace [table] raises. *)
Lemma C8_round_trip_fails_on_quote_in_value :
  let v := "a" +:+ String dquote "b" in
  let parsed := {| __names := 0; __quote_char := dquote; __separator := dot |} in
  let h : heap := [[("table", PyStr v)]] in
  fully_resolved (deref h (__names parsed)) = true
  /\ name parsed h = (Ok (quoted dquote v), h)
  /\ tokenize dot dquote (quoted dquote v) = ["a"; "b"]
  /\ reparse parsed h
     = (Raise (too_many_namespaces (quoted dquote v) dot ["table"]), h).
Proof. split_and!; vm_compute; reflexivity. Qed.

(** C8, as the code has it by design: for an instance (its mapping a
    dictionary: no repeated key) whose namespaces are all resolved, whose
    separator is [.], whose quote character is not [.], and whose values
    hold neither the quote character nor a backtick,
    parsing the rendered name again for the instance's own namespaces, quote
    character and separator returns a new instance whose mapping is equal
    to the mapping of the instance, namespace by namespace. *)
Theorem C8_round_trip (parsed : instance) (h : heap) :
  let d := deref h (__names parsed) in
  wf d ->
  fully_resolved d = true ->
  __separator parsed = dot ->
  __quote_char parsed <> dot ->
  values_free_of (__quote_char parsed) d = true ->
  values_free_of backtick d = true ->
  reparse parsed h
  = (Ok {| __names := length h;
           __quote_char := __quote_char parsed;
           __separator := __separator parsed |}, h ++ [d])
  /\ deref (h ++ [d]) (length h) = d.
Proof.
  intros d Hwf Hfull Hsep Hqc Hfq Hfb. split; [|apply deref_alloc].
  destruct parsed as [l qc sep]. simpl in *. subst sep.
  unfold reparse, bind. rewrite name_run.
  unfold ParsedNamespaces.namespaces, bind, load, ret.
  cbn [__names __quote_char __separator]. fold d.
  rewrite resolved_names_wf by done.
  pose proof (resolved_values_full d Hfull) as Hvals.
  pose proof (resolved_values_free qc d Hfq) as Hq.
  pose proof (resolved_values_free backtick d Hfb) as Hb.
  destruct (resolved_values d) as [|v vs] eqn:E.
  - symmetry in Hvals. apply fmap_nil_inv in Hvals.
    rewrite Hvals. reflexivity.
  - cbv zeta. fold (rendering qc v vs).
    assert (length (v :: vs) = length (keys d)) as Hlen.
    { unfold keys. rewrite length_fmap, <- (length_fmap snd d), <- Hvals.
      by rewrite length_fmap. }
    rewrite from_name_str_run
      by (rewrite tokenize_rendering by done; lia).
    rewrite tokenize_rendering by done. simpl default.
    rewrite defaulting_empty, pop_each_aligned by lia.
    rewrite Hlen, Nat.sub_diag. simpl replicate. rewrite app_nil_l, Hvals.
    unfold keys. rewrite zip_fst_snd.
    by rewrite of_pairs_NoDup.
Qed.

Lemma C8_round_trip_witness :
  reparse {| __names := 0; __quote_char := dquote; __separator := dot |}
    [[("database", PyStr "my_db"); ("table", PyStr "my.table")]]
  = (Ok {| __names := 1; __quote_char := dquote; __separator := dot |},
     [[("database", PyStr "my_db"); ("table", PyStr "my.table")];
      [("database", PyStr "my_db"); ("table", PyStr "my.table")]]).
Proof.
  refine (proj1 (C8_round_trip
                   {| __names := 0; __quote_char := dquote; __separator := dot |}
                   [[("database", PyStr "my_db"); ("table", PyStr "my.table")]]
                   _ eq_refl eq_refl _ eq_refl eq_refl)).
  - repeat constructor; set_solver.
  - discriminate.
Defined.

(** ** What holds of the code next to the claims it departs from *)

(** [name], as the code has it: the resolved values in the order of the
    mapping, each wrapped in the quote character, with quote character, [.]
    and quote character between them whatever the separator of the instance
    is; the empty string when no value is resolved.  For the separator [.]
    this is the rendering the specification describes. *)
Theorem name_renders_with_dot (self : instance) (h : heap) :
  wf (deref h (__names self)) ->
  name self h
  = (Ok (render_spec (__quote_char self) dot
           (resolved_values (deref h (__names self)))), h).
Proof.
  intros Hwf. rewrite name_run, resolved_names_wf by done.
  by destruct (resolved_values (deref h (__names self))).
Qed.

Lemma name_renders_with_dot_witness :
  name {| __names := 0; __quote_char := "'"%char; __separator := dot |}
    [[("database", PyNone); ("schema", PyStr "s"); ("table", PyStr "t")]]
  = (Ok "'s'.'t'",
     [[("database", PyNone); ("schema", PyStr "s"); ("table", PyStr "t")]]).
Proof.
  refine (name_renders_with_dot
            {| __names := 0; __quote_char := "'"%char; __separator := dot |}
            [[("database", PyNone); ("schema", PyStr "s"); ("table", PyStr "t")]]
            _).
  repeat constructor; set_solver.
Defined.

(** The tokenizer on a quoted span, as the code has it: a span whose body
    holds neither the quote character nor a backtick is one component, the
    body as it is written, separators included. *)
Theorem quoted_span_is_one_component (sep qc : ascii) (body : string) :
  occurs qc body = false ->
  occurs backtick body = false ->
  tokenize sep qc (quoted qc body) = [body].
Proof.
  intros Hq Hb. unfold tokenize, quoted, str_of_char.
  replace (String.eqb (String qc (body +:+ String qc "")) "") with false
    by reflexivity.
  by rewrite findall_quoted.
Qed.

Lemma quoted_span_is_one_component_witness :
  tokenize dot dquote (quoted dquote "my.table") = ["my.table"].
Proof.
  exact (quoted_span_is_one_component dot dquote "my.table" eq_refl eq_refl).
Defined.

(** ** More on the tokenizer *)

Section TokenizerMore.

Variables (sep qc : ascii).

Lemma tokenize_findall (s : string) : tokenize sep qc s = findall sep qc s.
Proof. by destruct s. Qed.

Lemma all_plain_no_quote (s : string) :
  all_plain sep qc s = true -> occurs qc s = false.
Proof.
  induction s as [|c s IH]; [done|]. simpl.
  intros [Hc Hs]%andb_true_iff. rewrite IH by done.
  unfold plain in Hc. apply andb_true_iff in Hc as [_ Hc].
  apply negb_true_iff in Hc. by rewrite Hc.
Qed.

Lemma take_plain_run (s run rest : string) :
  take_plain sep qc s = (run, rest) -> all_plain sep qc run = true.
Proof.
  revert run rest. induction s as [|c s IH]; simpl; intros run rest.
  - by intros [= <- <-].
  - destruct (plain sep qc c) eqn:Hc; [|by intros [= <- <-]].
    destruct (take_plain sep qc s) as [run' rest'].
    intros [= <- <-]. simpl. rewrite Hc. by apply (IH _ _ eq_refl).
Qed.

Lemma lazy_until_quote_no_quote (s body rest : string) :
  lazy_until_quote qc s = Some (body, rest) -> occurs qc body = false.
Proof.
  revert body rest. induction s as [|c s IH]; simpl; intros body rest; [done|].
  destruct (Ascii.eqb c qc) eqn:Hc; [by intros [= <- <-]|].
  destruct (Ascii.eqb c backtick); [done|].
  destruct (lazy_until_quote qc s) as [[body' rest']|]; [|done].
  intros [= <- <-]. simpl. rewrite Hc. by apply (IH _ _ eq_refl).
Qed.

Lemma match_here_no_quote (s tok rest : string) :
  match_here sep qc s = Some (tok, rest) -> occurs qc tok = false.
Proof.
  destruct s as [|c s]; [done|]. cbn [match_here].
  destruct (plain sep qc c).
  - destruct (take_plain sep qc (String c s)) as [run rest'] eqn:E.
    intros [= <- <-]. apply all_plain_no_quote. by apply take_plain_run in E.
  - destruct (Ascii.eqb c qc); [|done]. apply lazy_until_quote_no_quote.
Qed.

Lemma findall_fuel_no_quote (n : nat) (s : string) :
  Forall (fun tok => occurs qc tok = false) (findall_fuel sep qc n s).
Proof.
  revert s. induction n as [|n IH]; intros s; [constructor|].
  destruct s as [|c s]; [constructor|]. cbn [findall_fuel].
  destruct (match_here sep qc (String c s)) as [[tok rest]|] eqn:E; [|apply IH].
  constructor; [by apply match_here_no_quote in E | apply IH].
Qed.

(** A run of class characters is taken whole when what follows does not
    start with one. *)
Lemma take_plain_stop (w rest : string) :
  all_plain sep qc w = true ->
  take_plain sep qc rest = (EmptyString, rest) ->
  take_plain sep qc (w +:+ rest) = (w, rest).
Proof.
  intros Hw Hrest. induction w as [|c w IH]; [done|].
  simpl in Hw. apply andb_true_iff in Hw as [Hc Hw].
  rewrite append_cons. cbn [take_plain]. rewrite Hc. by rewrite IH.
Qed.

Lemma findall_word (w rest : string) :
  word sep qc w = true ->
  take_plain sep qc rest = (EmptyString, rest) ->
  findall sep qc (w +:+ rest) = w :: findall sep qc rest.
Proof.
  unfold word. intros [Hne Hw]%andb_true_iff Hrest.
  destruct w as [|c w]; [done|].
  pose proof (take_plain_stop (String c w) rest Hw Hrest) as E.
  rewrite append_cons in *. rewrite findall_unfold. cbn [match_here].
  assert (plain sep qc c = true) as ->
    by (simpl in Hw; by apply andb_true_iff in Hw as [? _]).
  by rewrite E.
Qed.

Lemma take_plain_separator (rest : string) :
  take_plain sep qc (String sep rest) = (EmptyString, String sep rest).
Proof. cbn [take_plain]. by rewrite plain_separator. Qed.

(** The components of a string of words joined by the separator. *)
Lemma findall_join (ws : list string) :
  sep <> qc ->
  Forall (fun w => word sep qc w = true) ws ->
  findall sep qc (String.concat (str_of_char sep) ws) = ws.
Proof.
  intros Hne. induction ws as [|w ws IH]; intros Hws; [done|].
  apply Forall_cons in Hws as [Hw Hws].
  destruct ws as [|w' ws].
  - cbn [String.concat]. rewrite <- (append_nil_r w) at 1.
    by rewrite findall_word.
  - change (String.concat (str_of_char sep) (w :: w' :: ws))
      with (w +:+ String sep (String.concat (str_of_char sep) (w' :: ws))).
    rewrite findall_word by (done || apply take_plain_separator).
    rewrite findall_skip_separator by done.
    by rewrite IH.
Qed.

Lemma lazy_until_quote_unterminated (s : string) :
  occurs qc s = false -> lazy_until_quote qc s = None.
Proof.
  induction s as [|c s IH]; [done|]. simpl.
  intros [Hc Hs]%orb_false_iff. rewrite Hc.
  destruct (Ascii.eqb c backtick); [done|]. by rewrite IH.
Qed.

End TokenizerMore.

(** Unquoted names: words (non-empty strings without separator and quote
    character) joined by the separator tokenize to those words, in order. *)
Theorem tokenize_joined_words (sep qc : ascii) (words : list string) :
  sep <> qc ->
  Forall (fun w => word sep qc w = true) words ->
  tokenize sep qc (String.concat (str_of_char sep) words) = words.
Proof. intros Hne Hws. rewrite tokenize_findall. by apply findall_join. Qed.

Lemma tokenize_joined_words_witness :
  tokenize dot dquote "my_db.my_schema.my_table"
  = ["my_db"; "my_schema"; "my_table"].
Proof.
  refine (tokenize_joined_words dot dquote ["my_db"; "my_schema"; "my_table"] _ _).
  - discriminate.
  - repeat constructor.
Defined.

(** No component that the tokenizer returns holds the quote character. *)
Theorem tokenize_components_without_quote (sep qc : ascii) (name : string) :
  Forall (fun component => occurs qc component = false) (tokenize sep qc name).
Proof. rewrite tokenize_findall. apply findall_fuel_no_quote. Qed.

(** A quote character that is never closed is skipped: the name tokenizes
    as the text after it does. *)
Theorem tokenize_unterminated_quote (sep qc : ascii) (rest : string) :
  occurs qc rest = false ->
  tokenize sep qc (String qc rest) = tokenize sep qc rest.
Proof.
  intros Hrest. rewrite !tokenize_findall, findall_unfold. cbn [match_here].
  rewrite plain_quote, Ascii.eqb_refl.
  by rewrite lazy_until_quote_unterminated.
Qed.

Lemma tokenize_unterminated_quote_witness :
  tokenize dot dquote (String dquote "my_db.my_table")
  = tokenize dot dquote "my_db.my_table".
Proof.
  exact (tokenize_unterminated_quote dot dquote "my_db.my_table" eq_refl).
Defined.

(** ** More on [from_name] *)

Lemma from_name_str_result (s : string) (nss : list string) (qc sep : ascii)
    (defaults : option (gmap string pyval)) (h h' : heap) (self : instance) :
  from_name (NameStr s) nss qc sep defaults h = (Ok self, h') ->
  self = {| __names := length h; __quote_char := qc; __separator := sep |}
  /\ h' = h ++ [deref h' (__names self)]
  /\ forall k, k ∈ keys (deref h' (__names self)) <-> k ∈ nss.
Proof.
  intros Hrun.
  destruct (decide (length (tokenize sep qc s) <= length nss)) as [Hle|Hgt].
  2: { rewrite from_name_str_overflow in Hrun by lia. done. }
  rewrite from_name_str_run in Hrun by done.
  injection Hrun as <- <-. simpl. rewrite deref_alloc. split_and!; [done..|].
  intros k. rewrite keys_defaulting_present.
  - apply keys_of_parsed_string.
  - intros k' Hk'. apply keys_of_parsed_string. by apply elem_of_reverse.
Qed.

(** [from_name] of an instance raises exactly when the instance has a
    namespace that the schema lacks; the error names the set of those
    namespaces and the store is left as it was.  Otherwise it returns an
    instance over the mapping object of the given one. *)
Theorem from_name_rejects_extra_namespaces (given : instance)
    (namespaces : list string) (quote_char separator : ascii)
    (defaults : option (gmap string pyval)) (h : heap) :
  let own := keys (deref h (__names given)) in
  ((exists k, k ∈ own /\ k ∉ namespaces) ->
   exists extra : gset string,
     from_name (NameParsed given) namespaces quote_char separator defaults h
       = (Raise (not_encapsulated extra), h)
     /\ forall k, k ∈ extra <-> k ∈ own /\ k ∉ namespaces)
  /\ ((forall k, k ∈ own -> k ∈ namespaces) ->
      exists h',
        from_name (NameParsed given) namespaces quote_char separator defaults h
        = (Ok {| __names := __names given;
                 __quote_char := quote_char;
                 __separator := separator |}, h')).
Proof.
  intros own. rewrite from_name_parsed_run. cbv zeta. fold own. split.
  - intros (k & Hk & Hk'). case_bool_decide as Hextra.
    + eexists. split; [done|]. set_solver.
    + set_solver.
  - intros Hsub. case_bool_decide as Hextra.
    + destruct Hextra. set_solver.
    + eauto.
Qed.

Lemma from_name_rejects_extra_namespaces_witness :
  exists extra : gset string,
    from_name
      (NameParsed {| __names := 0; __quote_char := dquote; __separator := dot |})
      ["database"; "table"] dquote dot None
      [[("catalog", PyStr "c"); ("table", PyStr "t")]]
    = (Raise (not_encapsulated extra),
       [[("catalog", PyStr "c"); ("table", PyStr "t")]])
    /\ forall k, k ∈ extra <->
         k ∈ keys (deref [[("catalog", PyStr "c"); ("table", PyStr "t")]] 0)
         /\ k ∉ ["database"; "table"].
Proof.
  refine (proj1 (from_name_rejects_extra_namespaces
                   {| __names := 0; __quote_char := dquote; __separator := dot |}
                   ["database"; "table"] dquote dot None
                   [[("catalog", PyStr "c"); ("table", PyStr "t")]]) _).
  exists "catalog". split; [left | set_solver].
Defined.

(** Whatever its arguments, [from_name] returns an instance or raises a
    [ValueError]; it raises no [KeyError] (the lookup of a default is
    guarded) and when it raises the store is as it was. *)
Theorem from_name_raises_only_ValueError (name : name_arg)
    (namespaces : list string) (quote_char separator : ascii)
    (defaults : option (gmap string pyval)) (h : heap) :
  match from_name name namespaces quote_char separator defaults h with
  | (Ok _, _) => True
  | (Raise (ValueError _), h') => h' = h
  | (Raise _, _) => False
  end.
Proof.
  destruct name as [s|given|ty].
  - destruct (decide (length (tokenize separator quote_char s)
                      <= length namespaces)) as [Hle|Hgt].
    + by rewrite from_name_str_run.
    + by rewrite from_name_str_overflow by lia.
  - rewrite from_name_parsed_run. cbv zeta. by case_bool_decide.
  - by rewrite from_name_other_run.
Qed.

(** [from_name] of an instance works on the mapping object of that
    instance: when every namespace of the schema is resolved in it or has a
    default, the given instance itself reads, for every namespace of the
    schema, its own value if that was resolved and the default otherwise;
    no other object of the store changes and none is created. *)
Theorem from_name_writes_defaults_into_given_instance (given : instance)
    (namespaces : list string) (quote_char separator : ascii)
    (defaults : option (gmap string pyval)) (h : heap) :
  let before := deref h (__names given) in
  __names given < length h ->
  (forall k, k ∈ keys before -> k ∈ namespaces) ->
  (forall k, k ∈ namespaces ->
     truthy (get before k) = true \/ is_Some (default ∅ defaults !! k)) ->
  exists h',
    from_name (NameParsed given) namespaces quote_char separator defaults h
    = (Ok {| __names := __names given;
             __quote_char := quote_char;
             __separator := separator |}, h')
    /\ length h' = length h
    /\ (forall l, l <> __names given -> deref h' l = deref h l)
    /\ forall k, k ∈ namespaces ->
         get (deref h' (__names given)) k = defaulted (default ∅ defaults) before k.
Proof.
  intros before Hl Hsub Hpass. rewrite from_name_parsed_run. cbv zeta.
  fold before. rewrite bool_decide_eq_false_2 by set_solver.
  eexists. split_and!; [done | | |].
  - by rewrite length_insert.
  - intros l Hne. by rewrite deref_insert_ne.
  - intros k Hk. rewrite deref_insert_eq by done.
    destruct (defaulting_through (default ∅ defaults) (reverse namespaces) [] before)
      as (_ & Hin & _).
    { intros k' Hk'. apply Hpass. by apply elem_of_reverse. }
    apply Hin. by apply elem_of_reverse.
Qed.

Lemma from_name_writes_defaults_into_given_instance_witness :
  exists h',
    (from_name
       (NameParsed {| __names := 0; __quote_char := dquote; __separator := dot |})
       ["database"; "table"] dquote dot
       (Some {[ "database" := PyStr "default" ]})
       [[("database", PyNone); ("table", PyStr "t")]]
     = (Ok {| __names := 0; __quote_char := dquote; __separator := dot |}, h'))
    /\ get (deref h' 0) "database" = PyStr "default".
Proof.
  destruct (from_name_writes_defaults_into_given_instance
              {| __names := 0; __quote_char := dquote; __separator := dot |}
              ["database"; "table"] dquote dot
              (Some {[ "database" := PyStr "default" ]})
              [[("database", PyNone); ("table", PyStr "t")]])
    as (h' & Hrun & _ & _ & Hget).
  - simpl. lia.
  - intros k Hk. exact Hk.
  - intros k Hk. apply elem_of_cons in Hk as [->|Hk].
    + right. by eexists.
    + apply list_elem_of_singleton in Hk as ->. by left.
  - exists h'. split; [exact Hrun|]. apply (Hget "database"). left.
Defined.

(** ** [__getattr__] *)

(** On an instance that [from_name] built from a string, attribute lookup
    is defined exactly on the namespaces of the schema: it returns a value
    for each of them and raises [AttributeError] for any other name. *)
Theorem getattr_defined_on_schema (s : string) (namespaces : list string)
    (quote_char separator : ascii) (defaults : option (gmap string pyval))
    (h h' : heap) (self : instance) (attribute : string) :
  from_name (NameStr s) namespaces quote_char separator defaults h = (Ok self, h') ->
  (attribute ∈ namespaces ->
   exists v, __getattr__ self attribute h' = (Ok v, h')
             /\ v = get (deref h' (__names self)) attribute)
  /\ (attribute ∉ namespaces ->
      __getattr__ self attribute h' = (Raise (AttributeError attribute), h')).
Proof.
  intros Hrun. apply from_name_str_result in Hrun as (_ & _ & Hkeys).
  unfold __getattr__, bind, load, get. split.
  - intros Hin. apply Hkeys in Hin.
    destruct (getitem (deref h' (__names self)) attribute) as [v|] eqn:E.
    + by exists v.
    + apply getitem_None in E. done.
  - intros Hnin. rewrite <- Hkeys in Hnin. apply getitem_None in Hnin.
    by rewrite Hnin.
Qed.

Lemma getattr_defined_on_schema_witness :
  __getattr__ {| __names := 0; __quote_char := dquote; __separator := dot |}
    "schema" [[("database", PyNone); ("table", PyStr "t")]]
  = (Raise (AttributeError "schema"),
     [[("database", PyNone); ("table", PyStr "t")]]).
Proof.
  refine (proj2 (getattr_defined_on_schema
                   "t" ["database"; "table"] dquote dot None [] _ _ "schema"
                   ltac:(vm_compute; reflexivity)) _).
  set_solver.
Defined.

(** ** Truth value and rendering of parsed names *)

Section ValuesFacts.

Variable Q : pyval -> Prop.

Lemma Forall_values_setitem (d : odict) (k : string) (v : pyval) :
  Forall (fun item => Q (snd item)) d -> Q v ->
  Forall (fun item => Q (snd item)) (setitem d k v).
Proof.
  intros Hd Hv. induction d as [|[k' v'] d IH]; simpl.
  - by constructor.
  - apply Forall_cons in Hd as [Hv' Hd].
    destruct (String.eqb k' k); constructor; auto.
Qed.

Lemma Forall_values_of_pairs (pairs : list (string * pyval)) :
  Forall (fun item => Q (snd item)) pairs ->
  Forall (fun item => Q (snd item)) (of_pairs pairs).
Proof.
  unfold of_pairs.
  assert (Forall (fun item : string * pyval => Q (snd item)) []) as Hd
    by constructor.
  revert Hd. generalize (@nil (string * pyval)).
  induction pairs as [|[k v] pairs IH]; intros d Hd Hps; [exact Hd|].
  apply Forall_cons in Hps as [Hv Hps]. simpl.
  apply IH; [|done]. by apply Forall_values_setitem.
Qed.

Lemma Forall_values_get (d : odict) (k : string) :
  Forall (fun item => Q (snd item)) d -> k ∈ keys d -> Q (get d k).
Proof.
  intros Hd Hk. unfold get.
  destruct (getitem d k) as [v|] eqn:E.
  - apply getitem_Some_in in E. rewrite Forall_forall in Hd.
    by apply (Hd (k, v)).
  - by apply getitem_None in E.
Qed.

End ValuesFacts.

Lemma pop_each_nothing (rns : list string) :
  Forall (fun item => snd item = PyNone) (pop_each rns []).
Proof. induction rns as [|ns rns IH]; simpl; by constructor. Qed.

Lemma resolved_names_falsy (d0 l : odict) :
  Forall (fun item => truthy (snd item) = false) l ->
  omap (fun item : string * pyval =>
          if truthy (snd item) then
            match getitem d0 (fst item) with
            | Some (PyStr s) => Some s
            | _ => None
            end
          else None) l = [].
Proof.
  induction l as [|[k v] l IH]; intros Hl; [done|].
  apply Forall_cons in Hl as [Hv Hl]. cbn [omap list_omap].
  simpl in Hv. simpl. rewrite Hv. by apply IH.
Qed.

Lemma resolved_values_existsb (d : odict) :
  match resolved_values d with
  | [] => existsb (fun item => truthy (snd item)) d = false
  | _ :: _ => existsb (fun item => truthy (snd item)) d = true
  end.
Proof.
  induction d as [|[k v] d IH]; [done|].
  unfold resolved_values. cbn [omap list_omap existsb snd].
  fold (resolved_values d).
  destruct v as [|s]; simpl; [exact IH|].
  destruct (String.eqb s ""); simpl; [exact IH | done].
Qed.

(** The empty name, with no defaults: whatever the schema, the instance
    renders as the empty string, is falsy, and every namespace of the schema
    reads [None]. *)
Theorem from_name_of_empty_string (namespaces : list string)
    (quote_char separator : ascii) (defaults : option (gmap string pyval))
    (h : heap) :
  default ∅ defaults = ∅ ->
  exists self h',
    from_name (NameStr "") namespaces quote_char separator defaults h
      = (Ok self, h')
    /\ name self h' = (Ok "", h')
    /\ __bool__ self h' = (Ok false, h')
    /\ forall ns, ns ∈ namespaces -> __getattr__ self ns h' = (Ok PyNone, h').
Proof.
  intros Hdef. rewrite from_name_str_run by (simpl; lia).
  rewrite Hdef, defaulting_empty.
  set (d := of_pairs (reverse (pop_each (reverse namespaces)
                                 (tokenize separator quote_char "")))).
  assert (Forall (fun item => snd item = PyNone) d) as Hnone.
  { apply (Forall_values_of_pairs (fun v => v = PyNone)).
    apply Forall_reverse. exact (pop_each_nothing (reverse namespaces)). }
  assert (name {| __names := length h; __quote_char := quote_char;
                  __separator := separator |} (h ++ [d])
          = (Ok "", h ++ [d])) as Hname.
  { rewrite name_run. simpl. rewrite deref_alloc.
    unfold resolved_names. rewrite resolved_names_falsy; [done|].
    eapply Forall_impl; [exact Hnone|]. by intros [k v]; simpl; intros ->. }
  eexists _, _. split_and!; [done | exact Hname | |].
  - unfold __bool__, bind. by rewrite Hname.
  - intros ns Hns. unfold __getattr__, bind, load. simpl. rewrite deref_alloc.
    assert (ns ∈ keys d) as Hk by by apply keys_of_parsed_string.
    pose proof (Forall_values_get (fun v => v = PyNone) d ns Hnone Hk) as Hget.
    unfold get in Hget. destruct (getitem d ns) as [v|] eqn:E.
    + by rewrite Hget.
    + by apply getitem_None in E.
Qed.

Lemma from_name_of_empty_string_witness :
  exists self h',
    from_name (NameStr "") ["database"; "table"] dquote dot None []
      = (Ok self, h')
    /\ name self h' = (Ok "", h')
    /\ __bool__ self h' = (Ok false, h')
    /\ forall ns, ns ∈ ["database"; "table"] ->
         __getattr__ self ns h' = (Ok PyNone, h').
Proof.
  exact (from_name_of_empty_string ["database"; "table"] dquote dot None []
           eq_refl).
Defined.

(** [__bool__]: an instance is truthy exactly when one of its namespaces is
    resolved, that is, set to a string that is not empty. *)
Theorem bool_iff_some_namespace_resolved (self : instance) (h : heap) :
  wf (deref h (__names self)) ->
  __bool__ self h
  = (Ok (existsb (fun item => truthy (snd item)) (deref h (__names self))), h).
Proof.
  intros Hwf. unfold __bool__, bind. rewrite name_run.
  rewrite resolved_names_wf by done.
  pose proof (resolved_values_existsb (deref h (__names self))) as Hex.
  destruct (resolved_values (deref h (__names self))) as [|v vs];
    rewrite Hex; reflexivity.
Qed.

Lemma bool_iff_some_namespace_resolved_witness :
  __bool__ {| __names := 0; __quote_char := dquote; __separator := dot |}
    [[("database", PyNone); ("table", PyStr "")]]
  = (Ok false, [[("database", PyNone); ("table", PyStr "")]]).
Proof.
  refine (bool_iff_some_namespace_resolved
            {| __names := 0; __quote_char := dquote; __separator := dot |}
            [[("database", PyNone); ("table", PyStr "")]] _).
  repeat constructor; set_solver.
Defined.

(** ** More on [parent] and the constructor *)

Lemma keys_removelast (d : odict) : keys (removelast d) = removelast (keys d).
Proof.
  destruct (last d) as [x|] eqn:E.
  - apply last_Some in E as [d' ->]. unfold keys.
    rewrite fmap_app. simpl. by rewrite !List.removelast_last.
  - by apply last_None in E as ->.
Qed.

Lemma getitem_app_l (d1 d2 : odict) (k : string) :
  k ∈ keys d1 -> getitem (d1 ++ d2) k = getitem d1 k.
Proof.
  induction d1 as [|[k' v'] d1 IH]; simpl; intros Hk.
  - by apply elem_of_nil in Hk.
  - destruct (String.eqb_spec k' k) as [->|Hne]; [done|].
    apply elem_of_cons in Hk as [->|Hk]; [done | auto].
Qed.

Lemma getitem_removelast (d : odict) (k : string) :
  k ∈ keys (removelast d) -> getitem (removelast d) k = getitem d k.
Proof.
  destruct (last d) as [x|] eqn:E.
  - apply last_Some in E as [d' ->]. rewrite List.removelast_last.
    intros Hk. by rewrite getitem_app_l.
  - by apply last_None in E as ->.
Qed.

(** [parent] of an instance with at least one namespace is a new instance
    over a new mapping object: its namespaces are those of the instance
    without the last, each with the value it has in the instance; the
    mapping of the instance itself is as before, and a later assignment in
    the parent's mapping does not reach it. *)
Theorem parent_is_independent_copy (self : instance) (h : heap)
    (k : string) (v : pyval) :
  let d := deref h (__names self) in
  __names self < length h ->
  d <> [] ->
  exists up h',
    parent self h = (Ok up, h')
    /\ __names up <> __names self
    /\ deref h' (__names self) = d
    /\ ParsedNamespaces.namespaces up h' = (Ok (removelast (keys d)), h')
    /\ (forall ns, ns ∈ removelast (keys d) ->
          getitem (deref h' (__names up)) ns = getitem d ns)
    /\ deref (snd (dict_setitem (__names up) k v h')) (__names self) = d.
Proof.
  intros d Hl Hne.
  exists {| __names := length h; __quote_char := __quote_char self;
            __separator := __separator self |}, (h ++ [removelast d]).
  split_and!.
  - unfold parent, dict_copy, dict_popitem, bind, load, alloc. simpl.
    rewrite deref_alloc. fold d.
    destruct d as [|item items]; [done|].
    destruct (popitem_cons item items) as [x ->].
    by rewrite insert_alloc.
  - simpl. lia.
  - by apply deref_app_l.
  - unfold ParsedNamespaces.namespaces, bind, load, ret. simpl.
    by rewrite deref_alloc, keys_removelast.
  - intros ns Hns. simpl. rewrite deref_alloc.
    apply getitem_removelast. by rewrite keys_removelast.
  - unfold dict_setitem. simpl. rewrite insert_alloc.
    by apply deref_app_l.
Qed.

Lemma parent_is_independent_copy_witness :
  exists up h',
    parent {| __names := 0; __quote_char := dquote; __separator := dot |}
      [[("database", PyStr "db"); ("table", PyStr "t")]] = (Ok up, h')
    /\ ParsedNamespaces.namespaces up h' = (Ok ["database"], h')
    /\ deref (snd (dict_setitem (__names up) "database" PyNone h')) 0
       = [("database", PyStr "db"); ("table", PyStr "t")].
Proof.
  destruct (parent_is_independent_copy
              {| __names := 0; __quote_char := dquote; __separator := dot |}
              [[("database", PyStr "db"); ("table", PyStr "t")]]
              "database" PyNone)
    as (up & h' & Hrun & _ & _ & Hns & _ & Hset).
  - simpl. lia.
  - discriminate.
  - exists up, h'. split_and!; [exact Hrun | exact Hns | exact Hset].
Defined.

(** The constructor with an ordering list that is not empty builds a new
    mapping object: the given mapping is left as it was, and a later
    assignment in the given mapping does not reach the instance.  Without a
    list the instance holds the given mapping object itself. *)
Theorem init_with_ordering_list_copies (names : loc) (namespaces : list string)
    (quote_char separator : ascii) (h : heap) (k : string) (v : pyval) :
  names < length h ->
  namespaces <> [] ->
  (exists self h',
     __init__ names (Some namespaces) quote_char separator h = (Ok self, h')
     /\ __names self <> names
     /\ deref h' names = deref h names
     /\ deref (snd (dict_setitem names k v h')) (__names self)
        = deref h' (__names self))
  /\ __init__ names None quote_char separator h
     = (Ok {| __names := names;
              __quote_char := quote_char;
              __separator := separator |}, h).
Proof.
  intros Hl Hne. split; [|done].
  destruct namespaces as [|ns nss]; [done|].
  eexists _, _. split; [reflexivity|]. simpl. split_and!.
  - lia.
  - by apply deref_app_l.
  - unfold dict_setitem. simpl. apply deref_insert_ne. lia.
Qed.

Lemma init_with_ordering_list_copies_witness :
  exists self h',
    __init__ 0 (Some ["table"]) dquote dot [[("table", PyStr "t")]] = (Ok self, h')
    /\ __names self <> 0
    /\ deref h' 0 = deref [[("table", PyStr "t")]] 0
    /\ deref (snd (dict_setitem 0 "table" PyNone h')) (__names self)
       = deref h' (__names self).
Proof.
  refine (proj1 (init_with_ordering_list_copies 0 ["table"] dquote dot
                   [[("table", PyStr "t")]] "table" PyNone _ _)).
  - simpl. lia.
  - discriminate.
Defined.

(** ** Unquoted names through [from_name] *)

Section WordsFacts.

Variables (sep qc : ascii).

Lemma word_not_empty (w : string) : word sep qc w = true -> String.eqb w "" = false.
Proof. unfold word. intros [H _]%andb_true_iff. by apply negb_true_iff. Qed.

Lemma resolved_values_zip_words (nss words : list string) :
  length nss = length words ->
  Forall (fun w => word sep qc w = true) words ->
  resolved_values (zip nss (PyStr <$> words)) = words.
Proof.
  revert nss. induction words as [|w words IH]; intros nss Hlen Hws.
  - by destruct nss.
  - destruct nss as [|ns nss]; [done|]. apply Forall_cons in Hws as [Hw Hws].
    rewrite fmap_cons. unfold resolved_values. cbn [zip_with omap list_omap snd].
    rewrite (word_not_empty w Hw). fold (resolved_values (zip nss (PyStr <$> words))).
    rewrite IH; [done | by injection Hlen | done].
Qed.

Lemma resolved_values_zip_unset (m : nat) (nss : list string) (vals : list pyval) :
  resolved_values (zip nss (replicate m PyNone ++ vals))
  = resolved_values (zip (drop m nss) vals).
Proof.
  revert nss. induction m as [|m IH]; intros nss; [done|].
  destruct nss as [|ns nss]; [by destruct vals|].
  simpl. unfold resolved_values. cbn [omap list_omap snd].
  apply IH.
Qed.

Lemma get_zip_NoDup (nss : list string) (vals : list pyval) (i : nat)
    (ns : string) (v : pyval) :
  NoDup nss -> length nss = length vals ->
  nss !! i = Some ns -> vals !! i = Some v ->
  get (zip nss vals) ns = v.
Proof.
  intros Hnd Hlen Hns Hv. unfold get. rewrite (getitem_in_wf _ ns v); [done | |].
  - unfold wf, keys. rewrite fst_zip by lia. done.
  - apply list_elem_of_lookup. exists i.
    by rewrite lookup_zip_with, Hns; simpl; rewrite Hv.
Qed.

(** What [from_name] returns for words joined by the separator. *)
Lemma from_name_words_run (words nss : list string)
    (defaults : option (gmap string pyval)) (h : heap) :
  sep <> qc ->
  Forall (fun w => word sep qc w = true) words ->
  length words <= length nss ->
  NoDup nss ->
  from_name (NameStr (String.concat (str_of_char sep) words)) nss qc sep defaults h
  = (Ok {| __names := length h; __quote_char := qc; __separator := sep |},
     h ++ [defaulting (default ∅ defaults) (reverse nss)
             (zip nss (replicate (length nss - length words) PyNone
                       ++ (PyStr <$> words)))]).
Proof.
  intros Hne Hws Hle Hnd.
  assert (tokenize sep qc (String.concat (str_of_char sep) words) = words) as Htok
    by (rewrite tokenize_findall; by apply findall_join).
  rewrite from_name_str_run by (rewrite Htok; lia).
  rewrite Htok, pop_each_aligned by done.
  rewrite of_pairs_NoDup; [done|].
  rewrite fst_zip; [done|].
  rewrite length_app, length_replicate, length_fmap. lia.
Qed.

End WordsFacts.

(** The name of a parsed unquoted name: words joined by the separator,
    parsed with no defaults for a schema without repeated namespaces that
    has room for them, render as those words, each in quote characters,
    with [.] between them; the namespaces left unset take no part. *)
Theorem name_of_parsed_words (sep qc : ascii) (words namespaces : list string)
    (defaults : option (gmap string pyval)) (h : heap) :
  sep <> qc ->
  Forall (fun w => word sep qc w = true) words ->
  length words <= length namespaces ->
  NoDup namespaces ->
  default ∅ defaults = ∅ ->
  exists self h',
    from_name (NameStr (String.concat (str_of_char sep) words))
      namespaces qc sep defaults h = (Ok self, h')
    /\ name self h' = (Ok (render_spec qc dot words), h').
Proof.
  intros Hne Hws Hle Hnd Hdef.
  rewrite (from_name_words_run sep qc) by done.
  rewrite Hdef, defaulting_empty.
  eexists _, _. split; [done|].
  rewrite name_run. cbn [__names __quote_char]. rewrite deref_alloc.
  rewrite resolved_names_wf.
  - rewrite resolved_values_zip_unset.
    rewrite (resolved_values_zip_words sep qc); [by destruct words | | done].
    rewrite length_drop. lia.
  - unfold wf, keys. rewrite fst_zip; [done|].
    rewrite length_app, length_replicate, length_fmap. lia.
Qed.

Lemma name_of_parsed_words_witness :
  exists self h',
    from_name (NameStr "my_db.my_table") ["catalog"; "database"; "table"]
      "'"%char dot None [] = (Ok self, h')
    /\ name self h' = (Ok "'my_db'.'my_table'", h').
Proof.
  refine (name_of_parsed_words dot "'"%char ["my_db"; "my_table"]
            ["catalog"; "database"; "table"] None [] _ _ _ _ eq_refl).
  - discriminate.
  - repeat constructor.
  - simpl. lia.
  - repeat constructor; set_solver.
Defined.

(** Defaults for the namespaces a name leaves open: words joined by the
    separator, parsed for a schema without repeated namespaces in which
    every namespace before the ones the words fill has a default, give the
    instance in which those namespaces read their defaults and the last
    namespaces read the words, in order. *)
Theorem from_name_fills_open_namespaces (sep qc : ascii)
    (words namespaces : list string) (defaults : option (gmap string pyval))
    (h : heap) :
  sep <> qc ->
  Forall (fun w => word sep qc w = true) words ->
  length words <= length namespaces ->
  NoDup namespaces ->
  (forall i ns, i < length namespaces - length words ->
     namespaces !! i = Some ns -> is_Some (default ∅ defaults !! ns)) ->
  exists self h',
    from_name (NameStr (String.concat (str_of_char sep) words))
      namespaces qc sep defaults h = (Ok self, h')
    /\ forall i ns, namespaces !! i = Some ns ->
         get (deref h' (__names self)) ns
         = aligned_value (default ∅ defaults) (length namespaces) words i ns.
Proof.
  intros Hne Hws Hle Hnd Hdefs.
  rewrite (from_name_words_run sep qc) by done.
  eexists _, _. split; [done|]. cbn [__names]. rewrite deref_alloc.
  set (n := length namespaces) in *. set (k := length words) in *.
  set (vals := replicate (n - k) PyNone ++ (PyStr <$> words)).
  assert (length namespaces = length vals) as Hlen.
  { unfold vals. rewrite length_app, length_replicate, length_fmap. lia. }
  assert (forall i ns, namespaces !! i = Some ns ->
            (i < n - k /\ get (zip namespaces vals) ns = PyNone)
            \/ (n - k <= i /\ exists w, words !! (i - (n - k)) = Some w
                /\ get (zip namespaces vals) ns = PyStr w)) as Hget.
  { intros i ns Hns. destruct (decide (i < n - k)) as [Hi|Hi].
    - left. split; [done|]. apply (get_zip_NoDup _ _ i); [done..|].
      unfold vals. rewrite lookup_app_l by (rewrite length_replicate; lia).
      by apply lookup_replicate_2.
    - right. split; [lia|].
      assert (i < n) as Hin by (by apply lookup_lt_Some in Hns).
      destruct (lookup_lt_is_Some_2 words (i - (n - k))) as [w Hw]; [lia|].
      exists w. split; [done|]. apply (get_zip_NoDup _ _ i); [done..|].
      unfold vals. rewrite lookup_app_r by (rewrite length_replicate; lia).
      rewrite length_replicate. by rewrite list_lookup_fmap, Hw. }
  destruct (defaulting_through (default ∅ defaults) (reverse namespaces) []
              (zip namespaces vals)) as (_ & Hin & _).
  { intros ns Hns. rewrite elem_of_reverse in Hns.
    apply list_elem_of_lookup in Hns as [i Hi].
    destruct (Hget i ns Hi) as [[Hlt _]|(_ & w & Hw & ->)].
    - right. by apply (Hdefs i).
    - left. simpl. rewrite (word_not_empty sep qc w); [done|].
      rewrite Forall_forall in Hws. apply Hws.
      by apply list_elem_of_lookup_2 in Hw. }
  intros i ns Hns. rewrite Hin by (apply elem_of_reverse; by apply list_elem_of_lookup_2 in Hns).
  unfold defaulted, aligned_value. fold n k.
  destruct (Hget i ns Hns) as [[Hlt ->]|(Hge & w & Hw & ->)].
  - simpl. by destruct (Nat.ltb_spec i (n - k)); [|lia].
  - simpl. rewrite (word_not_empty sep qc w).
    + simpl. destruct (Nat.ltb_spec i (n - k)); [lia|]. by rewrite Hw.
    + rewrite Forall_forall in Hws. apply Hws.
      by apply list_elem_of_lookup_2 in Hw.
Qed.

Lemma from_name_fills_open_namespaces_witness :
  exists self h',
    from_name (NameStr "my_table") ["database"; "table"] dquote dot
      (Some {[ "database" := PyStr "default" ]}) [] = (Ok self, h')
    /\ forall i ns, ["database"; "table"] !! i = Some ns ->
         get (deref h' (__names self)) ns
         = aligned_value {[ "database" := PyStr "default" ]} 2 ["my_table"] i ns.
Proof.
  refine (from_name_fills_open_namespaces dot dquote ["my_table"]
            ["database"; "table"] (Some {[ "database" := PyStr "default" ]}) []
            _ _ _ _ _).
  - discriminate.
  - repeat constructor.
  - simpl. lia.
  - repeat constructor; set_solver.
  - intros i ns Hi Hns. simpl in Hi.
    destruct i as [|i]; [|lia]. injection Hns as <-. by eexists.
Defined.

(** ** Reading an instance *)

Lemma wf_removelast (d : odict) : wf d -> wf (removelast d).
Proof.
  unfold wf. rewrite keys_removelast. intros Hnd.
  destruct (last (keys d)) as [x|] eqn:E.
  - apply last_Some in E as [ks Hks]. rewrite Hks in Hnd |- *.
    rewrite List.removelast_last. by apply NoDup_app in Hnd as [? _].
  - apply last_None in E. rewrite E. simpl. constructor.
Qed.

(** The name of a parent: for an instance with at least one namespace, the
    parent renders the resolved values of all namespaces but the last, each
    in quote characters with [.] between them. *)
Theorem name_of_parent (self : instance) (h : heap) :
  let d := deref h (__names self) in
  wf d ->
  d <> [] ->
  exists up h',
    parent self h = (Ok up, h')
    /\ name up h'
       = (Ok (render_spec (__quote_char self) dot
                (resolved_values (removelast d))), h').
Proof.
  intros d Hwf Hne.
  exists {| __names := length h; __quote_char := __quote_char self;
            __separator := __separator self |}, (h ++ [removelast d]).
  split.
  - unfold parent, dict_copy, dict_popitem, bind, load, alloc. simpl.
    rewrite deref_alloc. fold d.
    destruct d as [|item items]; [done|].
    destruct (popitem_cons item items) as [x ->].
    by rewrite insert_alloc.
  - rewrite name_run. cbn [__names __quote_char]. rewrite deref_alloc.
    rewrite resolved_names_wf by by apply wf_removelast.
    by destruct (resolved_values (removelast d)).
Qed.

Lemma name_of_parent_witness :
  exists up h',
    parent {| __names := 0; __quote_char := "'"%char; __separator := dot |}
      [[("database", PyStr "db"); ("table", PyStr "t")]] = (Ok up, h')
    /\ name up h' = (Ok "'db'", h').
Proof.
  refine (name_of_parent
            {| __names := 0; __quote_char := "'"%char; __separator := dot |}
            [[("database", PyStr "db"); ("table", PyStr "t")]] _ _).
  - repeat constructor; set_solver.
  - discriminate.
Defined.

(** [from_name] of a string that fits the schema creates one new mapping
    object, which the returned instance holds, and leaves every object that
    was in the store as it was; the new mapping has no repeated key. *)
Theorem from_name_of_string_allocates_one_mapping (s : string)
    (namespaces : list string) (quote_char separator : ascii)
    (defaults : option (gmap string pyval)) (h h' : heap) (self : instance) :
  from_name (NameStr s) namespaces quote_char separator defaults h = (Ok self, h') ->
  __names self = length h
  /\ length h' = S (length h)
  /\ (forall l, l < length h -> deref h' l = deref h l)
  /\ wf (deref h' (__names self)).
Proof.
  intros Hrun.
  destruct (decide (length (tokenize separator quote_char s) <= length namespaces))
    as [Hle|Hgt].
  2: { rewrite from_name_str_overflow in Hrun by lia. done. }
  rewrite from_name_str_run in Hrun by done.
  injection Hrun as <- <-. simpl. split_and!.
  - done.
  - rewrite length_app. simpl. lia.
  - intros l Hl. by apply deref_app_l.
  - rewrite deref_alloc. unfold wf. rewrite keys_defaulting_present.
    + apply wf_of_pairs.
    + intros k Hk. apply keys_of_parsed_string. by apply elem_of_reverse.
Qed.

Lemma from_name_of_string_allocates_one_mapping_witness :
  length [[("table", PyStr "t")]; [("database", PyNone); ("table", PyStr "u")]]
  = S (length [[("table", PyStr "t")]]).
Proof.
  exact (proj1 (proj2 (from_name_of_string_allocates_one_mapping
                         "u" ["database"; "table"] dquote dot None
                         [[("table", PyStr "t")]] _ _
                         ltac:(vm_compute; reflexivity)))).
Defined.
